(** * TorchVAE: the loss function and the train / evaluate / sample loop of
      [main.py], embedded in Rocq.

    The script trains a variational autoencoder on CIFAR-10.  What is
    embedded here is the part of the script that is plain Python control
    flow around the numerical library: [loss_function], [train], [test] and
    the epoch loop under [__main__], together with the small fragment of the
    tensor library those functions call (reshaping, broadcasting,
    element-wise arithmetic, sum reduction, the two reconstruction metrics).

    Tensor elements are kept abstract behind the [Scalar] interface, so that
    every definition is written once, from the source, and can then be read
    in two ways: over the real numbers (module [Ideal], exact arithmetic) and
    over IEEE-754 single precision (module [Binary32], the element type the
    script actually runs with).  What the script imports ([models.py], the
    random generator, automatic differentiation, the optimizer) is the
    interface [Imports]; module [Fixture] is a small instance of it on which
    the definitions run. *)

From Stdlib Require Import String Ascii DecimalString.
From Stdlib Require DecimalPos DecimalZ.
From Stdlib Require Import List ZArith Arith Bool Lia Permutation.
From Stdlib Require Import Reals Lra.
From Stdlib Require Import Floats.SpecFloat.
Import ListNotations.

Set Implicit Arguments.

(* ===================================================================== *)
(** * Exceptions                                                          *)
(* ===================================================================== *)

(** The exceptions the embedded code can raise.  None is ever caught by the
    script, so each one aborts the run. *)
Inductive error : Type :=
| ViewError          (* Tensor.view: the requested shape does not fit *)
| SizeMismatch       (* binary_cross_entropy: target size <> input size *)
| InputRange         (* binary_cross_entropy: an input element outside [0,1] *)
| BroadcastError     (* element-wise operation on shapes that do not broadcast *)
| StackError         (* default collate / torch.cat on tensors of unequal size *)
| IndexError         (* dataset index, or indexing a 0-dimensional tensor *)
| ZeroDivisionError  (* Python [/] or [%] with a zero right operand *)
| ValueError         (* DataLoader: batch_size is not positive *)
| ModelError.        (* raised inside the model's forward or decode *)

Inductive result (A : Type) : Type :=
| Ok  (a : A)
| Err (e : error).

Arguments Ok {A} a.
Arguments Err {A} e.

Definition rbind {A B} (r : result A) (k : A -> result B) : result B :=
  match r with
  | Ok a => k a
  | Err e => Err e
  end.

Declare Scope result_scope.
Delimit Scope result_scope with result.
Notation "'let?' x ':=' r 'in' k" := (rbind r (fun x => k))
  (at level 10, x pattern, r at level 100, k at level 200) : result_scope.

(* ===================================================================== *)
(** * The scalar interface                                                *)
(* ===================================================================== *)

(** Operations on tensor elements used by [main.py] and by the library
    functions it calls.  [fclog x] is the clamped logarithm
    [max(log x, -100)] that [binary_cross_entropy] applies to its input;
    [fneg_half] is the literal [-0.5]; [fleb] is the comparison [<=];
    [of_nat] converts a Python [int] (a length or an index) to a number. *)
Class Scalar (F : Type) : Type := {
  fzero : F;
  fone : F;
  fneg_half : F;
  fadd : F -> F -> F;
  fsub : F -> F -> F;
  fmul : F -> F -> F;
  fdiv : F -> F -> F;
  fexp : F -> F;
  fclog : F -> F;
  fleb : F -> F -> bool;
  of_nat : nat -> F
}.

(* ===================================================================== *)
(** * The tensor library fragment                                         *)
(* ===================================================================== *)

Module Torch.
Section Tensors.
Context {F : Type} `{Scalar F}.

(** A tensor: its size and its elements in row-major order. *)
Record Tensor : Type := mkTensor { shape : list nat; data : list F }.

Definition numel_of (s : list nat) : nat := fold_right Nat.mul 1 s.
Definition numel (t : Tensor) : nat := numel_of (shape t).

(** A well-formed tensor stores exactly as many elements as its size says. *)
Definition wf (t : Tensor) : Prop := length (data t) = numel t.

Definition full (s : list nat) (v : F) : Tensor :=
  mkTensor s (repeat v (numel_of s)).
Definition zeros (s : list nat) : Tensor := full s fzero.

(** [t.size(0)], which is also [len(t)]. *)
Definition size0 (t : Tensor) : nat := hd 0 (shape t).

(** [t.view(d1, ..., dk)].  At most one dimension may be [-1]; it is then
    inferred from the number of elements. *)
Definition known_dims (dims : list Z) : list Z :=
  filter (fun d => negb (d =? -1)%Z) dims.

Definition view (t : Tensor) (dims : list Z) : result Tensor :=
  let known := known_dims dims in
  let prod := numel_of (map Z.to_nat known) in
  if existsb (fun d => (d <? 0)%Z) known then Err ViewError
  else match length dims - length known with
       | 0 => if prod =? numel t
              then Ok (mkTensor (map Z.to_nat dims) (data t))
              else Err ViewError
       | 1 => if (prod =? 0) || negb (numel t mod prod =? 0)
              then Err ViewError
              else Ok (mkTensor
                         (map (fun d => if (d =? -1)%Z then numel t / prod
                                        else Z.to_nat d) dims)
                         (data t))
       | _ => Err ViewError
       end.

(** Element-wise application of a unary function (also used for an
    operation with a Python number on one side). *)
Definition tmap (f : F -> F) (t : Tensor) : Tensor :=
  mkTensor (shape t) (map f (data t)).

(** ** Broadcasting *)

(** Broadcast two sizes, given innermost dimension first. *)
Fixpoint broadcast_rev (a b : list nat) : option (list nat) :=
  match a, b with
  | [], _ => Some b
  | _, [] => Some a
  | x :: a', y :: b' =>
      match broadcast_rev a' b' with
      | None => None
      | Some r =>
          if x =? y then Some (x :: r)
          else if x =? 1 then Some (y :: r)
          else if y =? 1 then Some (x :: r)
          else None
      end
  end.

Definition broadcast_shapes (a b : list nat) : option (list nat) :=
  option_map (@rev nat) (broadcast_rev (rev a) (rev b)).

(** Cut [d] into [count] consecutive blocks of [size] elements. *)
Fixpoint blocks (size count : nat) (d : list F) : list (list F) :=
  match count with
  | 0 => []
  | S c => firstn size d :: blocks size c (skipn size d)
  end.

(** Elements of a tensor of size [s] expanded to size [s'] (same rank;
    each dimension of [s] is either equal to that of [s'] or is 1). *)
Fixpoint expand_data (s s' : list nat) (d : list F) : list F :=
  match s, s' with
  | x :: s1, y :: s1' =>
      if x =? y
      then flat_map (expand_data s1 s1') (blocks (numel_of s1) x d)
      else concat (repeat (expand_data s1 s1' d) y)
  | _, _ => d
  end.

Definition expand_to (t : Tensor) (s' : list nat) : list F :=
  expand_data (repeat 1 (length s' - length (shape t)) ++ shape t) s' (data t).

Fixpoint map2 (f : F -> F -> F) (a b : list F) : list F :=
  match a, b with
  | x :: a', y :: b' => f x y :: map2 f a' b'
  | _, _ => []
  end.

(** An element-wise binary operation between two tensors. *)
Definition binop (f : F -> F -> F) (a b : Tensor) : result Tensor :=
  match broadcast_shapes (shape a) (shape b) with
  | None => Err BroadcastError
  | Some s => Ok (mkTensor s (map2 f (expand_to a s) (expand_to b s)))
  end.

(** [torch.sum(t)]: all elements, accumulated from zero in storage order.
    (The library does not fix the order of accumulation; over the reals the
    order is immaterial.  In single precision this is one of the orders the
    library may use: what is stated there about a sum of numbers that are
    not all zero is stated for every order, with [summed] below.) *)
Definition tsum (t : Tensor) : F := fold_left fadd (data t) fzero.

(** ** The two reconstruction metrics *)

Definition in_unit (v : F) : bool := fleb fzero v && fleb v fone.

Fixpoint shape_eqb (a b : list nat) : bool :=
  match a, b with
  | [], [] => true
  | x :: a', y :: b' => (x =? y) && shape_eqb a' b'
  | _, _ => false
  end.

(** One element of the cross-entropy:
    [(y - 1) * max(log(1 - x), -100) - y * max(log(x), -100)]. *)
Definition bce_elem (x y : F) : F :=
  fsub (fmul (fsub y fone) (fclog (fsub fone x))) (fmul y (fclog x)).

(** [F.binary_cross_entropy(input, target, reduction='sum')]: the target
    must have the size of the input, every input element must lie in the
    unit interval, and the elements are summed. *)
Definition binary_cross_entropy (input target : Tensor) : result F :=
  if shape_eqb (shape target) (shape input) then
    if forallb in_unit (data input)
    then Ok (tsum (mkTensor (shape input)
                     (map2 bce_elem (data input) (data target))))
    else Err InputRange
  else Err SizeMismatch.

Definition sq_diff (x y : F) : F := fmul (fsub x y) (fsub x y).

(** [F.mse_loss(input, target, reduction='sum')]: the operands are
    broadcast against each other and the squared differences are summed. *)
Definition mse_loss (input target : Tensor) : result F :=
  (let? d := binop sq_diff input target in Ok (tsum d))%result.

(** ** Slicing and concatenation along the first dimension *)

(** [t[:n]]. *)
Definition take0 (t : Tensor) (n : nat) : result Tensor :=
  match shape t with
  | [] => Err IndexError
  | d :: rest =>
      Ok (mkTensor (Nat.min n d :: rest)
            (firstn (Nat.min n d * numel_of rest) (data t)))
  end.

(** [torch.cat([a, b])]. *)
Definition cat0 (a b : Tensor) : result Tensor :=
  match shape a, shape b with
  | da :: ra, db :: rb =>
      if shape_eqb ra rb
      then Ok (mkTensor (da + db :: ra) (data a ++ data b))
      else Err StackError
  | _, _ => Err StackError
  end.

(** [torch.stack(ts)], the default collate function of a DataLoader. *)
Definition stack (ts : list Tensor) : result Tensor :=
  match ts with
  | [] => Err StackError
  | t0 :: _ =>
      if forallb (fun t => shape_eqb (shape t) (shape t0)) ts
      then Ok (mkTensor (length ts :: shape t0) (flat_map data ts))
      else Err StackError
  end.

End Tensors.
Arguments Tensor F : clear implicits.
End Torch.
Import Torch.

(* ===================================================================== *)
(** * main.py: the loss function                                          *)
(* ===================================================================== *)

Section LossFunction.
Context {F : Type} `{Scalar F}.
Open Scope string_scope.

(** [F.binary_cross_entropy(recon_x, x.view(-1, 3072), reduction='sum')] *)
Definition BCE_term (recon_x x : Tensor F) : result F :=
  (let? xv := view x [-1; 3072]%Z in binary_cross_entropy recon_x xv)%result.

(** [F.mse_loss(recon_x, x.view(-1, 3072), reduction='sum')] *)
Definition MSE_term (recon_x x : Tensor F) : result F :=
  (let? xv := view x [-1; 3072]%Z in mse_loss recon_x xv)%result.

(** One element of [1 + logvar - mu.pow(2) - logvar.exp()]. *)
Definition kld_elem (m lv : F) : F :=
  fsub (fsub (fadd fone lv) (fmul m m)) (fexp lv).

(** [-0.5 * torch.sum(1 + logvar - mu.pow(2) - logvar.exp())] *)
Definition KLD_term (mu logvar : Tensor F) : result F :=
  (let? a := binop fsub (tmap (fadd fone) logvar) (tmap (fun m => fmul m m) mu) in
   let? b := binop fsub a (tmap fexp logvar) in
   Ok (fmul fneg_half (tsum b)))%result.

Definition loss_function (recon_x x mu logvar : Tensor F)
    (recon_type : string) : result F :=
  (let? BCE := BCE_term recon_x x in
   let? MSE := MSE_term recon_x x in
   let? KLD := KLD_term mu logvar in
   if String.eqb recon_type "BCE"
   then Ok (fadd BCE KLD)
   else Ok (fadd MSE KLD))%result.

End LossFunction.

(* ===================================================================== *)
(** * A state-and-exception monad for the script's statements             *)
(* ===================================================================== *)

(** A statement runs in a state [S] and either returns or raises; the state
    it leaves behind is kept in both cases. *)
Definition M (S A : Type) : Type := S -> result A * S.

Definition ret {S A} (a : A) : M S A := fun s => (Ok a, s).

Definition bind {S A B} (c : M S A) (k : A -> M S B) : M S B :=
  fun s => match c s with
           | (Ok a, s') => k a s'
           | (Err e, s') => (Err e, s')
           end.

Definition lift {S A} (r : result A) : M S A := fun s => (r, s).

Declare Scope stmt_scope.
Delimit Scope stmt_scope with stmt.
Notation "x <- c ;; k" := (bind c (fun x => k))
  (at level 61, c at next level, right associativity) : stmt_scope.
Notation "' p <- c ;; k" := (bind c (fun x => let 'p := x in k))
  (at level 61, p pattern, c at next level, right associativity) : stmt_scope.
Notation "c ;; k" := (bind c (fun _ => k))
  (at level 61, right associativity) : stmt_scope.

(* ===================================================================== *)
(** * main.py: configuration, globals and the mutable state               *)
(* ===================================================================== *)

(** The [argparse] namespace.  The integer options are Python [int]s. *)
Record Args : Type := mkArgs {
  batch_size : Z;
  epochs : Z;
  no_cuda : bool;
  seed : Z;
  log_interval : Z;
  recon_loss : string
}.

Definition default_args : Args :=
  {| batch_size := 128; epochs := 100; no_cuda := false; seed := 1;
     log_interval := 10; recon_loss := "BCE" |}.

Definition set_recon_loss (a : Args) (v : string) : Args :=
  {| batch_size := batch_size a; epochs := epochs a; no_cuda := no_cuda a;
     seed := seed a; log_interval := log_interval a; recon_loss := v |}.

(** The fields of [time.localtime()] the script reads. *)
Record struct_time : Type := mkTime {
  tm_year : Z; tm_mon : Z; tm_mday : Z; tm_hour : Z
}.

(** Python's [str] on an [int]. *)
Definition str (z : Z) : string := NilZero.string_of_int (Z.to_int z).

(** Python's [range(lo, hi)]. *)
Definition range (lo hi : Z) : list Z :=
  map (fun k => (lo + Z.of_nat k)%Z) (seq 0 (Z.to_nat (hi - lo))).

(** Python's [a % b] on [int]s (the sign follows the divisor). *)
Definition py_mod (a b : Z) : result Z :=
  if (b =? 0)%Z then Err ZeroDivisionError else Ok (a mod b)%Z.

(** Objects are referred to by their address in the heap. *)
Definition ObjId : Type := nat.

(** What the script keeps of a [torch.utils.data.DataLoader]. *)
Record DataLoader : Type := mkDataLoader {
  dl_dataset : ObjId;
  dl_batch_size : nat;
  dl_shuffle : bool
}.

(** [DataLoader(dataset, batch_size=bs, shuffle=sh)] *)
Definition new_DataLoader (dataset : ObjId) (bs : Z) (sh : bool)
  : result DataLoader :=
  if (bs <=? 0)%Z then Err ValueError
  else Ok {| dl_dataset := dataset; dl_batch_size := Z.to_nat bs;
             dl_shuffle := sh |}.

(** The batch sampler of a DataLoader: indices are appended to the current
    batch, a full batch is emitted, and a last incomplete batch is kept. *)
Fixpoint batch_sampler (bs : nat) (idxs batch : list nat) : list (list nat) :=
  match idxs with
  | [] => match batch with [] => [] | _ => [batch] end
  | i :: rest =>
      if length (batch ++ [i]) =? bs
      then (batch ++ [i]) :: batch_sampler bs rest []
      else batch_sampler bs rest (batch ++ [i])
  end.

(** [len(loader)] for a dataset of [n] examples. *)
Definition loader_len (dl : DataLoader) (n : nat) : nat :=
  (n + dl_batch_size dl - 1) / dl_batch_size dl.

(* ===================================================================== *)
(** * main.py: the script                                                 *)
(* ===================================================================== *)

(** ** What the script imports *)

(** Modelled from the spec: [models.py] ([ConvolutionalVAE]) is not among the
    sources.  The model is a black box with learnable parameters: a forward
    pass maps an image batch to (reconstruction, mean, log-variance), reading
    the parameters and the mode flag and drawing the sampler's noise from the
    random generator; the decoder maps latent vectors to images.  Neither
    writes the parameters.

    The interface also holds the library's random generator, automatic
    differentiation and the Adam optimizer.  [backward rt p m x r g] stands
    for [loss.backward()]: the gradients after accumulating into [g] the
    gradient of [loss_function] applied to [model(x)] with [recon_type=rt],
    at parameters [p], in mode [m], the forward pass having started from
    generator state [r]. *)
Class Imports (F : Type) : Type := {
  Params : Type;
  Rng : Type;
  Grads : Type;
  OptState : Type;
  (* models.py *)
  init_model : Rng -> Params * Rng;
  forward : Params -> bool -> Tensor F -> Rng ->
            result (Tensor F * Tensor F * Tensor F) * Rng;
  decode : Params -> bool -> Tensor F -> result (Tensor F);
  (* torch random generator *)
  manual_seed : Z -> Rng;
  randperm : nat -> Rng -> list nat * Rng;
  randn : list nat -> Rng -> Tensor F * Rng;
  (* autograd and optim.Adam *)
  no_grads : Grads;
  backward : string -> Params -> bool -> Tensor F -> Rng -> Grads -> Grads;
  adam_init : Params -> OptState;
  adam_step : Params -> Grads -> OptState -> Params * OptState
}.

Section Script.
Context {F : Type} `{Scalar F} `{Imports F}.
Open Scope string_scope.
Open Scope stmt_scope.

(** A dataset object: labelled images. *)
Definition Dataset : Type := list (Tensor F * Z).

(** ** Output *)

(** What the script prints and the image files it writes, in order. *)
Inductive Event : Type :=
| PrintTrainBatch (epoch : Z) (seen total : nat) (percent loss : F)
| PrintTrainEpoch (epoch : Z) (avg : F)
| PrintTestLoss (avg : F)
| SaveImage (img : Tensor F) (filename : string) (nrow : nat).

(** ** State *)

(** Module-level names that are bound once and then only read. *)
Record Globals : Type := mkGlobals {
  args : Args;
  heap : list Dataset;
  cifar_dataset : ObjId;
  train_loader : DataLoader;
  test_loader : DataLoader;
  timestring : string
}.

(** What changes while the script runs: the model (its parameters, their
    gradients, its mode), the optimizer, the random generator, and the
    output produced so far. *)
Record World : Type := mkWorld {
  w_params : Params;
  w_training : bool;
  w_grads : Grads;
  w_opt : OptState;
  w_rng : Rng;
  w_out : list Event
}.

Definition set_training (b : bool) : M World unit := fun w =>
  (Ok tt, mkWorld (w_params w) b (w_grads w) (w_opt w) (w_rng w) (w_out w)).

Definition with_rng {A} (f : Rng -> A * Rng) : M World A := fun w =>
  let (a, r) := f (w_rng w) in
  (Ok a, mkWorld (w_params w) (w_training w) (w_grads w) (w_opt w) r (w_out w)).

Definition emit (e : Event) : M World unit := fun w =>
  (Ok tt, mkWorld (w_params w) (w_training w) (w_grads w) (w_opt w)
            (w_rng w) (w_out w ++ [e])).

(** [optimizer.zero_grad()] *)
Definition zero_grad : M World unit := fun w =>
  (Ok tt, mkWorld (w_params w) (w_training w) no_grads (w_opt w)
            (w_rng w) (w_out w)).

(** [model(data)] *)
Definition model_call (x : Tensor F)
  : M World (Tensor F * Tensor F * Tensor F) := fun w =>
  let (r, rng) := forward (w_params w) (w_training w) x (w_rng w) in
  (r, mkWorld (w_params w) (w_training w) (w_grads w) (w_opt w) rng (w_out w)).

(** [model.decode(z)] *)
Definition model_decode (z : Tensor F) : M World (Tensor F) := fun w =>
  (decode (w_params w) (w_training w) z, w).

(** [loss.backward()], for the loss of the forward pass on [x] that
    started from generator state [r0]. *)
Definition loss_backward (rt : string) (x : Tensor F) (r0 : Rng)
  : M World unit := fun w =>
  (Ok tt, mkWorld (w_params w) (w_training w)
            (backward rt (w_params w) (w_training w) x r0 (w_grads w))
            (w_opt w) (w_rng w) (w_out w)).

(** [optimizer.step()] *)
Definition optimizer_step : M World unit := fun w =>
  let (p, o) := adam_step (w_params w) (w_grads w) (w_opt w) in
  (Ok tt, mkWorld p (w_training w) (w_grads w) o (w_rng w) (w_out w)).

Definition get_rng : M World Rng := fun w => (Ok (w_rng w), w).

(** Python's [x / n] for a number [x] and an [int] [n]. *)
Definition py_div (x : F) (n : nat) : result F :=
  match n with
  | 0 => Err ZeroDivisionError
  | _ => Ok (fdiv x (of_nat n))
  end.

(** ** Module level: lines 28-50 and the time stamp of line 117-118 *)

Definition mk_timestring (t : struct_time) : string :=
  "_" ++ str (tm_year t) ++ "_" ++ str (tm_mon t) ++ "_"
      ++ str (tm_mday t) ++ "_" ++ str (tm_hour t) ++ "_".

(** The dataset object is created once; both loaders are built on its
    address. *)
Definition module_init (a : Args) (cifar : Dataset) (now : struct_time)
  : result (Globals * World) :=
  (let rng := manual_seed (seed a) in
   let cifar_dataset := 0 in
   let heap := [cifar] in
   let? train_loader := new_DataLoader cifar_dataset (batch_size a) true in
   let? test_loader := new_DataLoader cifar_dataset (batch_size a) true in
   let (model, rng') := init_model rng in
   Ok (mkGlobals a heap cifar_dataset train_loader test_loader
         (mk_timestring now),
       mkWorld model true no_grads (adam_init model) rng' []))%result.

(** ** Iterating a loader *)

Definition loader_dataset (g : Globals) (dl : DataLoader) : result Dataset :=
  match nth_error (heap g) (dl_dataset dl) with
  | Some ds => Ok ds
  | None => Err IndexError
  end.

(** The index batches of one pass over a loader on [n] examples. *)
Definition loader_batches (dl : DataLoader) (n : nat)
  : M World (list (list nat)) :=
  idxs <- with_rng (fun r => if dl_shuffle dl then randperm n r
                             else (seq 0 n, r)) ;;
  ret (batch_sampler (dl_batch_size dl) idxs []).

Fixpoint fetch_images (ds : Dataset) (idxs : list nat)
  : result (list (Tensor F)) :=
  match idxs with
  | [] => Ok []
  | i :: rest =>
      match nth_error ds i with
      | None => Err IndexError
      | Some (img, _) =>
          (let? imgs := fetch_images ds rest in Ok (img :: imgs))%result
      end
  end.

(** One batch: the images at [idxs], stacked (labels are dropped). *)
Definition fetch (ds : Dataset) (idxs : list nat) : result (Tensor F) :=
  (let? imgs := fetch_images ds idxs in stack imgs)%result.

(** ** [train(epoch)] *)

(** The body of the loop at lines 76-91. *)
Definition train_batch (g : Globals) (epoch : Z) (ds : Dataset)
    (batch_idx : nat) (idxs : list nat) (train_loss : F) : M World F :=
  data <- lift (fetch ds idxs) ;;
  zero_grad ;;
  r0 <- get_rng ;;
  '(recon_batch, mu, logvar) <- model_call data ;;
  loss <- lift (loss_function recon_batch data mu logvar "MSE") ;;
  loss_backward "MSE" data r0 ;;
  let train_loss := fadd train_loss loss in
  optimizer_step ;;
  k <- lift (py_mod (Z.of_nat batch_idx) (log_interval (args g))) ;;
  (if (k =? 0)%Z then
     pct <- lift (py_div (fmul (of_nat 100) (of_nat batch_idx))
                    (loader_len (train_loader g) (length ds))) ;;
     per <- lift (py_div loss (size0 data)) ;;
     emit (PrintTrainBatch epoch (batch_idx * size0 data) (length ds) pct per)
   else ret tt) ;;
  ret train_loss.

Fixpoint train_loop (g : Globals) (epoch : Z) (ds : Dataset)
    (batches : list (list nat)) (batch_idx : nat) (train_loss : F)
  : M World F :=
  match batches with
  | [] => ret train_loss
  | idxs :: rest =>
      train_loss' <- train_batch g epoch ds batch_idx idxs train_loss ;;
      train_loop g epoch ds rest (S batch_idx) train_loss'
  end.

(** [model.train()], the loop, the summary line.  The learning-rate
    scheduler of line 74 is constructed and never stepped: it has no effect
    on the state. *)
Definition train (g : Globals) (epoch : Z) : M World unit :=
  set_training true ;;
  ds <- lift (loader_dataset g (train_loader g)) ;;
  batches <- loader_batches (train_loader g) (length ds) ;;
  train_loss <- train_loop g epoch ds batches 0 fzero ;;
  avg <- lift (py_div train_loss (length ds)) ;;
  emit (PrintTrainEpoch epoch avg).

(** ** [test(epoch)] *)

(** The body of the loop at lines 101-110. *)
Definition test_batch (g : Globals) (epoch : Z) (ds : Dataset)
    (i : nat) (idxs : list nat) (test_loss : F) : M World F :=
  data <- lift (fetch ds idxs) ;;
  '(recon_batch, mu, logvar) <- model_call data ;;
  loss <- lift (loss_function recon_batch data mu logvar "MSE") ;;
  let test_loss := fadd test_loss loss in
  (if (i =? 0)%nat then
     let n := Nat.min (size0 data) 8 in
     orig <- lift (take0 data n) ;;
     rv <- lift (view recon_batch [batch_size (args g); 3; 32; 32]%Z) ;;
     rec <- lift (take0 rv n) ;;
     comparison <- lift (cat0 orig rec) ;;
     emit (SaveImage comparison
             ("results_c/reconstruction_" ++ timestring g ++ str epoch ++ ".png")
             n)
   else ret tt) ;;
  ret test_loss.

Fixpoint test_loop (g : Globals) (epoch : Z) (ds : Dataset)
    (batches : list (list nat)) (i : nat) (test_loss : F) : M World F :=
  match batches with
  | [] => ret test_loss
  | idxs :: rest =>
      test_loss' <- test_batch g epoch ds i idxs test_loss ;;
      test_loop g epoch ds rest (S i) test_loss'
  end.

(** [model.eval()], the loop under [torch.no_grad()], the summary line. *)
Definition test (g : Globals) (epoch : Z) : M World unit :=
  set_training false ;;
  ds <- lift (loader_dataset g (test_loader g)) ;;
  batches <- loader_batches (test_loader g) (length ds) ;;
  test_loss <- test_loop g epoch ds batches 0 fzero ;;
  avg <- lift (py_div test_loss (length ds)) ;;
  emit (PrintTestLoss avg).

(** ** The epoch loop under [__main__] *)

(** Lines 122-126: sample from the prior, decode, save. *)
Definition sample_images (g : Globals) (epoch : Z) : M World unit :=
  sample <- with_rng (randn [64; 128]) ;;
  sample <- model_decode sample ;;
  img <- lift (view sample [64; 3; 32; 32]%Z) ;;
  emit (SaveImage img
          ("results_c/sample_" ++ timestring g ++ str epoch ++ ".png") 8).

Definition epoch_body (g : Globals) (epoch : Z) : M World unit :=
  train g epoch ;;
  test g epoch ;;
  sample_images g epoch.

Fixpoint for_each (body : Z -> M World unit) (l : list Z) : M World unit :=
  match l with
  | [] => ret tt
  | epoch :: rest => body epoch ;; for_each body rest
  end.

Definition main (g : Globals) : M World unit :=
  for_each (epoch_body g) (range 1 (epochs (args g) + 1)).

End Script.

Arguments Dataset F : clear implicits.
Arguments Event F : clear implicits.
Arguments Globals F : clear implicits.
Arguments World F {_}.

(* ===================================================================== *)
(** * The two readings of the scalar interface                            *)
(* ===================================================================== *)

(** ** Exact real arithmetic *)
Module Ideal.
Local Open Scope R_scope.

Definition Rleb (x y : R) : bool := if Rle_dec x y then true else false.

(** [max(log x, -100)], with [log 0 = -inf] clamped to [-100]. *)
Definition clog (x : R) : R :=
  if Rle_dec x 0 then -100 else Rmax (ln x) (-100).

#[global] Instance R_scalar : Scalar R := {|
  fzero := 0;
  fone := 1;
  fneg_half := - (1 / 2);
  fadd := Rplus;
  fsub := Rminus;
  fmul := Rmult;
  fdiv := Rdiv;
  fexp := exp;
  fclog := clog;
  fleb := Rleb;
  of_nat := INR
|}.

(** The sum of [f k] over [k < n]. *)
Definition Rsum (n : nat) (f : nat -> R) : R :=
  fold_right Rplus 0 (map f (seq 0 n)).

(** Entry [(i, j)] of a tensor with [D] columns. *)
Definition entry (D : nat) (t : Tensor R) (i j : nat) : R :=
  nth (i * D + j) (data t) 0.

(** The KL term as the specification writes it, for [N] examples and [D]
    latent dimensions:
    [-0.5 * sum over examples and latent dimensions of
            (1 + logvar - mu^2 - exp(logvar))]. *)
Definition KL_spec (N D : nat) (mu logvar : nat -> nat -> R) : R :=
  -0.5 * Rsum N (fun i => Rsum D (fun j =>
           1 + logvar i j - (mu i j) ^ 2 - exp (logvar i j))).
End Ideal.

(** ** IEEE-754 single precision *)
Module Binary32.
Definition prec : Z := 24.
Definition emax : Z := 128.
Abbreviation float32 := spec_float.

Definition of_Z (m e : Z) : float32 := binary_normalize prec emax m e false.

Definition pzero : float32 := S754_zero false.
Definition nzero : float32 := S754_zero true.
Definition one : float32 := of_Z 1 0.
Definition neg_half : float32 := of_Z (-1) (-1).
Definition neg_hundred : float32 := of_Z (-100) 0.

(** [std::max(a, b)] *)
Definition fmax (a b : float32) : float32 := if SFltb a b then b else a.

Definition is_zero (x : float32) : bool :=
  match x with S754_zero _ => true | _ => false end.

Section Libm.
(** The exponential and the logarithm of the platform's math library. *)
Variables (expf logf : float32 -> float32).

Definition f32_scalar : Scalar float32 := {|
  fzero := pzero;
  fone := one;
  fneg_half := neg_half;
  fadd := SFadd prec emax;
  fsub := SFsub prec emax;
  fmul := SFmul prec emax;
  fdiv := SFdiv prec emax;
  fexp := expf;
  fclog := fun x => fmax (logf x) neg_hundred;
  fleb := SFleb;
  of_nat := fun n => of_Z (Z.of_nat n) 0
|}.
End Libm.
End Binary32.

(* ===================================================================== *)
(** * Observing a run                                                     *)
(* ===================================================================== *)

Section Observations.
Context {F : Type} `{Scalar F} `{Imports F}.
Open Scope string_scope.

Definition with_recon_loss (g : Globals F) (v : string) : Globals F :=
  mkGlobals (set_recon_loss (args g) v) (heap g) (cifar_dataset g)
    (train_loader g) (test_loader g) (timestring g).

Definition sample_file (g : Globals F) (epoch : Z) : string :=
  "results_c/sample_" ++ timestring g ++ str epoch ++ ".png".

(** The state after lines 122-126 have run in state [w] with noise [z]
    drawn and image [img] saved. *)
Definition after_sample (g : Globals F) (epoch : Z) (w : World F)
    (rng : Rng) (img : Tensor F) : World F :=
  mkWorld (w_params w) (w_training w) (w_grads w) (w_opt w) rng
    (w_out w ++ [SaveImage img (sample_file g epoch) 8]).

(** The epochs of [l] run one after the other from state [w] to state
    [w']: in each, [train] returns, then [test] returns, then 64 latent
    vectors of dimension 128 are drawn with [randn], decoded, and saved
    under the sample file name of that epoch. *)
Inductive epochs_run (g : Globals F) : list Z -> World F -> World F -> Prop :=
| run_done (w : World F) : epochs_run g [] w w
| run_epoch (epoch : Z) (rest : list Z) (w w1 w2 w' : World F)
    (z dec img : Tensor F) (rng : Rng) :
    train g epoch w = (Ok tt, w1) ->
    test g epoch w1 = (Ok tt, w2) ->
    randn [64; 128] (w_rng w2) = (z, rng) ->
    decode (w_params w2) (w_training w2) z = Ok dec ->
    view dec [64; 3; 32; 32]%Z = Ok img ->
    epochs_run g rest (after_sample g epoch w2 rng img) w' ->
    epochs_run g (epoch :: rest) w w'.

(** [loss] is the squared-error loss of the batch [idxs] of [ds] in state
    [w]: the squared-error term plus the KL term of what the model returns
    on that batch. *)
Definition squared_error_loss_of (w : World F) (ds : Dataset F)
    (idxs : list nat) (loss : F) : Prop :=
  exists data recon mu logvar rng mse kld,
    fetch ds idxs = Ok data /\
    forward (w_params w) (w_training w) data (w_rng w)
    = (Ok (recon, mu, logvar), rng) /\
    MSE_term recon data = Ok mse /\
    KLD_term mu logvar = Ok kld /\
    loss = fadd mse kld.

(** Two states with the same parameters, gradients and optimizer state. *)
Definition same_model (w w' : World F) : Prop :=
  w_params w' = w_params w /\ w_grads w' = w_grads w /\ w_opt w' = w_opt w.

(** A statement that leaves the model and the optimizer as they are,
    whether it returns or raises. *)
Definition frame {A} (c : M (World F) A) : Prop :=
  forall w, same_model w (snd (c w)).

(** The milestones of a run that can be read off its output. *)
Inductive Stage : Type :=
| TrainDone (epoch : Z)
| EvalDone
| SampleSaved (filename : string).

Definition stage_of (e : Event F) : option Stage :=
  match e with
  | PrintTrainBatch _ _ _ _ _ => None
  | PrintTrainEpoch epoch _ => Some (TrainDone epoch)
  | PrintTestLoss _ => Some EvalDone
  | SaveImage _ name _ =>
      if prefix "results_c/sample_" name then Some (SampleSaved name)
      else None
  end.

Fixpoint stages (out : list (Event F)) : list Stage :=
  match out with
  | [] => []
  | e :: rest =>
      match stage_of e with
      | Some st => st :: stages rest
      | None => stages rest
      end
  end.

Definition epoch_stages (g : Globals F) (epoch : Z) : list Stage :=
  [TrainDone epoch; EvalDone; SampleSaved (sample_file g epoch)].

(** A statement that passes no milestone, whether it returns or raises. *)
Definition quiet {A} (c : M (World F) A) : Prop :=
  forall w, stages (w_out (snd (c w))) = stages (w_out w).

(** A statement that passes the milestones [st] in this order: all of them
    when it returns, and the first few of them when it raises. *)
Definition passes {A} (c : M (World F) A) (st : list Stage) : Prop :=
  forall w, exists reached missed,
    st = (reached ++ missed)%list /\
    stages (w_out (snd (c w))) = (stages (w_out w) ++ reached)%list /\
    (forall a, fst (c w) = Ok a -> missed = []).

End Observations.

(* ===================================================================== *)
(** * A small concrete environment                                        *)
(* ===================================================================== *)

(** A model whose decoder paints every pixel with one learnable level and
    whose encoder returns the prior, a counter for the random generator, and
    polynomial approximations of the exponential and the logarithm.  It is
    used to run the definitions on examples. *)
Module Fixture.
Import Binary32.

Definition add := SFadd prec emax.
Definition sub := SFsub prec emax.
Definition mul := SFmul prec emax.
Definition half : float32 := of_Z 1 (-1).
Definition quarter : float32 := of_Z 1 (-2).

(** Second-order polynomials around 0 and around 1. *)
Definition expf (x : float32) : float32 :=
  match x with
  | S754_nan => S754_nan
  | S754_infinity false => x
  | S754_infinity true => pzero
  | S754_zero _ => one
  | S754_finite _ _ _ => add one (mul x (add one (mul half x)))
  end.

Definition logf (x : float32) : float32 :=
  match x with
  | S754_nan => S754_nan
  | S754_zero _ => S754_infinity true
  | S754_infinity false => x
  | S754_infinity true => S754_nan
  | S754_finite true _ _ => S754_nan
  | S754_finite false _ _ =>
      let d := sub x one in mul d (sub one (mul half d))
  end.

#[global] Instance scalar : Scalar float32 := f32_scalar expf logf.

#[global] Instance imports : Imports float32 := {|
  Params := float32;
  Rng := nat;
  Grads := float32;
  OptState := nat;
  init_model := fun r => (half, S r);
  forward := fun p _ x r =>
    (Ok (full [size0 x; 3072] p, zeros [size0 x; 128], zeros [size0 x; 128]),
     S r);
  decode := fun p _ z => Ok (full [size0 z; 3072] p);
  manual_seed := Z.to_nat;
  randperm := fun n r => (rev (seq 0 n), S r);
  randn := fun s r => (zeros s, S r);
  no_grads := pzero;
  backward := fun _ p _ _ _ g => add g (sub p quarter);
  adam_init := fun _ => 0;
  adam_step := fun p g o => (sub p (mul half g), S o)
|}.

Definition image (v : float32) : Tensor float32 := full [3; 32; 32] v.

Definition dataset : Dataset float32 :=
  [(image pzero, 3%Z); (image half, 5%Z); (image one, 7%Z)].

Definition arguments : Args :=
  {| batch_size := 2; epochs := 1; no_cuda := true; seed := 1;
     log_interval := 1; recon_loss := "BCE" |}.

Definition now : struct_time :=
  {| tm_year := 2020; tm_mon := 4; tm_mday := 17; tm_hour := 9 |}.

(** Latent parameters of one example with two latent dimensions: over the
    reals, and zeros of both signs in single precision. *)
Definition muR : Tensor R := mkTensor [1; 2] [1; 2]%R.
Definition lvR : Tensor R := mkTensor [1; 2] [0; 1]%R.
Definition muF : Tensor float32 := mkTensor [1; 2] [pzero; nzero].
Definition lvF : Tensor float32 := mkTensor [1; 2] [nzero; pzero].

(** A grey reconstruction of one black image, over the reals. *)
Definition reconR : Tensor R := full [1; 3072] (1 / 2)%R.
Definition xR : Tensor R := full [1; 3; 32; 32] 0%R.

(** The globals and the initial state of the script for [arguments],
    [dataset] and [now]. *)
Definition globals : Globals float32 :=
  mkGlobals arguments [dataset] 0
    (mkDataLoader 0 2 true) (mkDataLoader 0 2 true) "_2020_4_17_9_".

Definition world0 : World float32 := mkWorld half true pzero 0 2 [].

(** The state in which the script ends. *)
Definition world_end : World float32 := snd (main globals world0).
End Fixture.

(* ===================================================================== *)
(** * Sums in an unspecified order                                        *)
(* ===================================================================== *)

Section Summation.
Context {A : Type}.
Variables (add : A -> A -> A) (zero : A).

(** [summed l v]: [v] is the result of adding up the elements of [l] in
    some order and with some grouping, possibly together with accumulators
    that start at [zero].  A reduction such as [torch.sum] produces one of
    these values; which one depends on how the library splits the work. *)
Inductive summed : list A -> A -> Prop :=
| summed_zero : summed [] zero
| summed_one (x : A) : summed [x] x
| summed_add (l1 l2 : list A) (a b : A) :
    summed l1 a -> summed l2 b -> summed (l1 ++ l2) (add a b)
| summed_perm (l l' : list A) (a : A) :
    Permutation l l' -> summed l a -> summed l' a.

End Summation.

(* ===================================================================== *)
(** * Further observations of a run                                       *)
(* ===================================================================== *)

Section RunShape.
Context {F : Type} `{Scalar F} `{Imports F}.
Open Scope string_scope.

(** The file [test] saves its comparison image under (line 110). *)
Definition reconstruction_file (g : Globals F) (epoch : Z) : string :=
  "results_c/reconstruction_" ++ timestring g ++ str epoch ++ ".png".

(** The optimizer steps of one pass over [batches], from parameters [p],
    optimizer state [o] and generator state [r]: for each batch in turn, the
    batch is fetched, the model is run on it in training mode, the gradient
    [gr] is that of the loss of this forward pass alone (taken from cleared
    gradients, at the parameters of the moment), and one optimizer step is
    made with it.  [gs] lists the gradients, one for each batch. *)
Inductive steps_run (ds : Dataset F)
  : list (list nat) -> Params -> OptState -> Rng ->
    list Grads -> Params -> OptState -> Rng -> Prop :=
| steps_done (p : Params) (o : OptState) (r : Rng) :
    steps_run ds [] p o r [] p o r
| steps_batch (idxs : list nat) (rest : list (list nat))
    (p : Params) (o : OptState) (r r1 : Rng) (x : Tensor F)
    (out : Tensor F * Tensor F * Tensor F) (gr : Grads) (gs : list Grads)
    (p' : Params) (o' : OptState) (r' : Rng) :
    fetch ds idxs = Ok x ->
    forward p true x r = (Ok out, r1) ->
    gr = backward "MSE" p true x r no_grads ->
    steps_run ds rest (fst (adam_step p gr o)) (snd (adam_step p gr o)) r1
      gs p' o' r' ->
    steps_run ds (idxs :: rest) p o r (gr :: gs) p' o' r'.

(** The optimizer steps of [n] epochs: in each epoch one pass as above over
    [nb] batches that together hold every index of the dataset once,
    starting from the parameters and the optimizer state the epoch before
    left, with some state of the random generator. *)
Inductive epochs_steps (ds : Dataset F) (nb : nat)
  : nat -> Params -> OptState -> list Grads -> Params -> OptState -> Prop :=
| epochs_none (p : Params) (o : OptState) : epochs_steps ds nb 0 p o [] p o
| epochs_more (n : nat) (batches : list (list nat))
    (p p1 p' : Params) (o o1 o' : OptState) (r r1 : Rng)
    (gs gs' : list Grads) :
    length batches = nb ->
    Permutation (concat batches) (seq 0 (length ds)) ->
    steps_run ds batches p o r gs p1 o1 r1 ->
    epochs_steps ds nb n p1 o1 gs' p' o' ->
    epochs_steps ds nb (S n) p o (gs ++ gs') p' o'.

(** The batches of a pass at which line 87 logs, with their indices, the
    first batch having index [first]. *)
Definition logged_from (li : Z) (first : nat) (batches : list (list nat))
  : list (nat * list nat) :=
  filter (fun kb => (Z.of_nat (fst kb) mod li =? 0)%Z)
    (combine (seq first (length batches)) batches).

Definition logged_batches (li : Z) (batches : list (list nat))
  : list (nat * list nat) :=
  logged_from li 0 batches.

(** A progress line (lines 88-91) for batch [kb] of a dataset of [total]
    examples: the examples seen are counted as [batch_idx * len(data)].
    The percentage and the loss it shows are left open. *)
Definition progress_line (epoch : Z) (total : nat) (kb : nat * list nat)
    (e : Event F) : Prop :=
  exists pct per,
    e = PrintTrainBatch epoch (fst kb * length (snd kb)) total pct per.

(** A statement that leaves the mode of the model as it is, whether it
    returns or raises. *)
Definition keeps_mode {A} (c : M (World F) A) : Prop :=
  forall w, w_training (snd (c w)) = w_training w.

(** Every image of the dataset has size [s]. *)
Definition images_of_size (s : list nat) (ds : Dataset F) : Prop :=
  forall img lbl, In (img, lbl) ds -> shape img = s.

End RunShape.

(** Whether the character [c] occurs in [s]. *)
Fixpoint has_char (c : ascii) (s : string) : bool :=
  match s with
  | EmptyString => false
  | String a rest => Ascii.eqb a c || has_char c rest
  end.

(** A single-precision number that is neither an infinity nor a NaN. *)
Definition finite32 (x : Binary32.float32) : bool :=
  match x with
  | S754_zero _ | S754_finite _ _ _ => true
  | _ => false
  end.

(** Runs of the script's functions in the small environment. *)
Module Runs.
Import Binary32 Fixture.

Definition world_trained : World float32 := snd (train globals 1 world0).
Definition world_tested : World float32 := snd (test globals 1 world_trained).

(** One pass over the loader of the small environment. *)
Definition batches : list (list nat) := [[2; 1]; [0]].
Definition world_loaded : World float32 :=
  snd (loader_batches (train_loader globals) 3 world0).

(** The environment with [--log-interval 0], and the state in which the
    first pass of the training loop ends there. *)
Definition arguments_li0 : Args :=
  {| batch_size := 2; epochs := 1; no_cuda := true; seed := 1;
     log_interval := 0; recon_loss := "BCE" |}.
Definition globals_li0 : Globals float32 :=
  mkGlobals arguments_li0 [dataset] 0
    (mkDataLoader 0 2 true) (mkDataLoader 0 2 true) "_2020_4_17_9_".
Definition world_li0 : World float32 :=
  snd (train_batch globals_li0 1 dataset 0 [2; 1] pzero world0).

(** The environment with [--epochs 0]. *)
Definition arguments_no_epoch : Args :=
  {| batch_size := 2; epochs := 0; no_cuda := true; seed := 1;
     log_interval := 1; recon_loss := "BCE" |}.
Definition globals_no_epoch : Globals float32 :=
  mkGlobals arguments_no_epoch [dataset] 0
    (mkDataLoader 0 2 true) (mkDataLoader 0 2 true) "_2020_4_17_9_".
End Runs.

(* ===================================================================== *)
(** * The definitions on small inputs                                     *)
(* ===================================================================== *)

Section Examples.
Import Binary32.
Open Scope string_scope.

Example broadcast_column_with_row :
  broadcast_shapes [2; 1] [3] = Some [2; 3].
Proof. reflexivity. Qed.

Example broadcast_mismatch : broadcast_shapes [2; 3] [4] = None.
Proof. reflexivity. Qed.

Example expand_column :
  expand_to (mkTensor [2; 1] [10; 20]) [2; 3] = [10; 10; 10; 20; 20; 20].
Proof. reflexivity. Qed.

Example expand_row :
  expand_to (mkTensor [3] [1; 2; 3]) [2; 3] = [1; 2; 3; 1; 2; 3].
Proof. reflexivity. Qed.

Example view_infers_rows :
  view (mkTensor [2; 3] [1; 2; 3; 4; 5; 6]) [-1; 2]%Z
  = Ok (mkTensor [3; 2] [1; 2; 3; 4; 5; 6]).
Proof. reflexivity. Qed.

Example view_rejects_bad_size :
  view (mkTensor [2; 3] [1; 2; 3; 4; 5; 6]) [-1; 4]%Z = Err ViewError.
Proof. reflexivity. Qed.

Example view_rejects_two_inferred :
  view (mkTensor [2; 3] [1; 2; 3; 4; 5; 6]) [-1; -1]%Z = Err ViewError.
Proof. reflexivity. Qed.

Example batch_sampler_keeps_last :
  batch_sampler 2 [4; 3; 2; 1; 0] [] = [[4; 3]; [2; 1]; [0]].
Proof. reflexivity. Qed.

Example range_epochs : range 1 (3 + 1) = [1; 2; 3]%Z.
Proof. reflexivity. Qed.

Example range_no_epoch : range 1 (-2 + 1) = [].
Proof. reflexivity. Qed.

Example py_mod_sign : py_mod (-7) 3 = Ok 2%Z /\ py_mod 7 (-3) = Ok (-2)%Z.
Proof. split; reflexivity. Qed.

Example py_mod_zero : py_mod 5 0 = Err ZeroDivisionError.
Proof. reflexivity. Qed.

Example timestring_of_now : mk_timestring Fixture.now = "_2020_4_17_9_".
Proof. reflexivity. Qed.

Example new_DataLoader_rejects_zero :
  new_DataLoader 0 0 true = Err ValueError.
Proof. reflexivity. Qed.

(** A reconstruction with an element 1.5 makes the call raise, also with
    the squared-error metric. *)
Example loss_function_out_of_range :
  loss_function (full [1; 3072] (of_Z 3 (-1))) (Fixture.image pzero)
    (zeros [1; 128]) (zeros [1; 128]) "MSE" = Err InputRange.
Proof. vm_compute. reflexivity. Qed.

(** A reconstruction of another size than the reshaped images. *)
Example loss_function_size_mismatch :
  loss_function (full [1; 3; 32; 32] Fixture.half) (Fixture.image pzero)
    (zeros [1; 128]) (zeros [1; 128]) "MSE" = Err SizeMismatch.
Proof. vm_compute. reflexivity. Qed.

(** The run of the small environment: parameters move during training,
    and the output is, in order, two training lines, the training summary,
    the reconstruction file, the test summary and the sample file. *)
Example fixture_run_output :
  map (fun e => match e with
                | PrintTrainBatch epoch seen total _ _ =>
                    ("train " ++ str epoch ++ " " ++ str (Z.of_nat seen)
                              ++ "/" ++ str (Z.of_nat total))
                | PrintTrainEpoch epoch _ => "epoch " ++ str epoch
                | PrintTestLoss _ => "test"
                | SaveImage img name nrow => name
                end)
      (w_out Fixture.world_end)
  = ["train 1 0/3"; "train 1 1/3"; "epoch 1";
     "results_c/reconstruction__2020_4_17_9_1.png"; "test";
     "results_c/sample__2020_4_17_9_1.png"].
Proof. vm_compute. reflexivity. Qed.

Example fixture_run_trains :
  w_params Fixture.world0 = Fixture.half /\
  w_params Fixture.world_end = of_Z 5 (-4).
Proof. split; vm_compute; reflexivity. Qed.
End Examples.

(* ===================================================================== *)
(** * Facts about the tensor fragment                                     *)
(* ===================================================================== *)

Section TensorFacts.
Context {F : Type} `{Scalar F}.

Lemma rbind_ok_inv {A B} (r : result A) (k : A -> result B) (b : B) :
  rbind r k = Ok b -> exists a, r = Ok a /\ k a = Ok b.
Proof.
  destruct r as [a|e]; simpl; intros E; [eauto | discriminate].
Qed.

Lemma shape_eqb_refl (s : list nat) : shape_eqb s s = true.
Proof.
  induction s as [|x s IH]; simpl; [reflexivity|].
  now rewrite Nat.eqb_refl, IH.
Qed.

Lemma shape_eqb_eq (a b : list nat) : shape_eqb a b = true <-> a = b.
Proof.
  split; [|intros ->; apply shape_eqb_refl].
  revert b; induction a as [|x a IH]; intros [|y b]; simpl;
    try discriminate; auto.
  intros E. apply andb_prop in E as [Hx Hs].
  apply Nat.eqb_eq in Hx. f_equal; auto.
Qed.

Lemma broadcast_rev_same (s : list nat) : broadcast_rev s s = Some s.
Proof.
  induction s as [|x s IH]; simpl; [reflexivity|].
  now rewrite IH, Nat.eqb_refl.
Qed.

Lemma broadcast_shapes_same (s : list nat) : broadcast_shapes s s = Some s.
Proof.
  unfold broadcast_shapes. rewrite broadcast_rev_same. simpl.
  now rewrite rev_involutive.
Qed.

Lemma blocks_concat (size count : nat) (d : list F) :
  length d = count * size -> concat (blocks size count d) = d.
Proof.
  revert d; induction count as [|c IH]; intros d Hd; simpl in *.
  - now destruct d.
  - rewrite IH.
    + apply firstn_skipn.
    + rewrite length_skipn. lia.
Qed.

Lemma blocks_length (size count : nat) (d b : list F) :
  length d = count * size -> In b (blocks size count d) -> length b = size.
Proof.
  revert d; induction count as [|c IH]; intros d Hd Hin; simpl in *.
  - contradiction.
  - destruct Hin as [<-|Hin].
    + rewrite length_firstn. lia.
    + apply (IH (skipn size d)); [rewrite length_skipn; lia | exact Hin].
Qed.

Lemma flat_map_fixed {A} (f : list A -> list A) (l : list (list A)) :
  (forall b, In b l -> f b = b) -> flat_map f l = concat l.
Proof.
  induction l as [|b l IH]; simpl; intros Hf; [reflexivity|].
  rewrite Hf by auto. f_equal. apply IH. auto.
Qed.

(** Expanding to the same size changes nothing. *)
Lemma expand_data_same (s : list nat) (d : list F) :
  length d = numel_of s -> expand_data s s d = d.
Proof.
  revert d; induction s as [|x s IH]; intros d Hd; simpl; [reflexivity|].
  rewrite Nat.eqb_refl. simpl in Hd.
  rewrite flat_map_fixed.
  - now apply blocks_concat.
  - intros b Hb. apply IH. eapply blocks_length; eauto.
Qed.

Lemma expand_to_same (t : Tensor F) : wf t -> expand_to t (shape t) = data t.
Proof.
  intros Hwf. unfold expand_to. rewrite Nat.sub_diag. simpl.
  now apply expand_data_same.
Qed.

(** On operands of one size, a binary operation is element by element. *)
Lemma binop_same_shape (f : F -> F -> F) (a b : Tensor F) :
  shape a = shape b -> wf a -> wf b ->
  binop f a b = Ok (mkTensor (shape a) (map2 f (data a) (data b))).
Proof.
  intros Hs Ha Hb. unfold binop. rewrite <- Hs, broadcast_shapes_same.
  rewrite (expand_to_same Ha). rewrite Hs at 2. now rewrite (expand_to_same Hb).
Qed.

Lemma map2_length (f : F -> F -> F) (a b : list F) :
  length a = length b -> length (map2 f a b) = length a.
Proof.
  revert b; induction a as [|x a IH]; intros [|y b]; simpl;
    try discriminate; auto.
Qed.

Lemma map2_repeat (f : F -> F -> F) (x y : F) (n : nat) :
  map2 f (repeat x n) (repeat y n) = repeat (f x y) n.
Proof. induction n; simpl; congruence. Qed.

Lemma map2_nth (f : F -> F -> F) (a b : list F) (k : nat) (da db : F) :
  length a = length b -> k < length a ->
  nth k (map2 f a b) (f da db) = f (nth k a da) (nth k b db).
Proof.
  revert b k; induction a as [|x a IH]; intros [|y b] k Hl Hk; simpl in *;
    try discriminate; try lia.
  destruct k; [reflexivity|]. apply IH; lia.
Qed.

Lemma forallb_repeat {A} (p : A -> bool) (x : A) (n : nat) :
  p x = true -> forallb p (repeat x n) = true.
Proof. intros Hp; induction n; simpl; [reflexivity | now rewrite Hp]. Qed.

Lemma wf_full (s : list nat) (v : F) : wf (full s v).
Proof. unfold wf, full, numel; simpl. apply repeat_length. Qed.

Lemma wf_tmap (f : F -> F) (t : Tensor F) : wf t -> wf (tmap f t).
Proof. unfold wf, tmap, numel; simpl. now rewrite length_map. Qed.

(** The three-operand expression of the KL term, element by element. *)
Lemma kld_data (m lv : list F) :
  length m = length lv ->
  map2 fsub (map2 fsub (map (fadd fone) lv) (map (fun x => fmul x x) m))
    (map fexp lv)
  = map2 kld_elem m lv.
Proof.
  revert lv; induction m as [|x m IH]; intros [|y lv]; simpl;
    try discriminate; auto.
  intros E. unfold kld_elem at 1. f_equal. apply IH. lia.
Qed.

(** The KL term on a mean and a log-variance of one size. *)
Lemma KLD_term_same_shape (mu logvar : Tensor F) :
  shape mu = shape logvar -> wf mu -> wf logvar ->
  KLD_term mu logvar
  = Ok (fmul fneg_half
          (fold_left fadd (map2 kld_elem (data mu) (data logvar)) fzero)).
Proof.
  intros Hs Hm Hl. unfold KLD_term.
  assert (Hlen : length (data mu) = length (data logvar)).
  { unfold wf, numel in *. congruence. }
  rewrite binop_same_shape; simpl; auto using wf_tmap.
  rewrite binop_same_shape; simpl; auto using wf_tmap.
  - unfold tsum; simpl. now rewrite kld_data.
  - unfold wf, numel in *; simpl.
    rewrite map2_length; rewrite !length_map; auto.
Qed.

End TensorFacts.

(* ===================================================================== *)
(** * Facts about the loss function, for every scalar type                *)
(* ===================================================================== *)

Section LossFacts.
Context {F : Type} `{Scalar F}.

Lemma loss_function_MSE (recon_x x mu logvar : Tensor F) :
  loss_function recon_x x mu logvar "MSE"%string
  = (let? _ := BCE_term recon_x x in
     let? MSE := MSE_term recon_x x in
     let? KLD := KLD_term mu logvar in
     Ok (fadd MSE KLD))%result.
Proof. reflexivity. Qed.

Lemma loss_function_MSE_inv (recon_x x mu logvar : Tensor F) (v : F) :
  loss_function recon_x x mu logvar "MSE"%string = Ok v ->
  exists bce mse kld,
    BCE_term recon_x x = Ok bce /\ MSE_term recon_x x = Ok mse /\
    KLD_term mu logvar = Ok kld /\ v = fadd mse kld.
Proof.
  rewrite loss_function_MSE. intros E.
  apply rbind_ok_inv in E as (bce & Hb & E).
  apply rbind_ok_inv in E as (mse & Hm & E).
  apply rbind_ok_inv in E as (kld & Hk & E).
  injection E as <-. now exists bce, mse, kld.
Qed.

Lemma view_data (t t' : Tensor F) (dims : list Z) :
  view t dims = Ok t' -> data t' = data t.
Proof.
  unfold view. destruct (existsb _ _); [discriminate|].
  destruct (length dims - length (known_dims dims)) as [|[|n]].
  - destruct (_ =? _); [|discriminate]. now intros [= <-].
  - destruct (_ || _); [discriminate|]. now intros [= <-].
  - discriminate.
Qed.

(** The cross-entropy raises the range exception exactly when the sizes
    agree and some input element is outside the unit interval. *)
Lemma binary_cross_entropy_range (input target : Tensor F) :
  binary_cross_entropy input target = Err InputRange <->
  shape target = shape input /\
  exists e, In e (data input) /\ in_unit e = false.
Proof.
  unfold binary_cross_entropy.
  destruct (shape_eqb (shape target) (shape input)) eqn:Hs.
  - apply shape_eqb_eq in Hs.
    destruct (forallb in_unit (data input)) eqn:Hr.
    + split; [discriminate|]. intros (_ & e & Hin & He).
      rewrite forallb_forall in Hr. rewrite (Hr e Hin) in He. discriminate.
    + split; [|reflexivity]. intros _. split; [exact Hs|].
      apply not_true_iff_false in Hr.
      destruct (existsb (fun v => negb (in_unit v)) (data input)) eqn:Hx.
      * apply existsb_exists in Hx as (e & Hin & He).
        exists e. split; [exact Hin|]. now apply negb_true_iff.
      * exfalso. apply Hr. apply forallb_forall. intros e Hin.
        destruct (in_unit e) eqn:He; [reflexivity|]. exfalso.
        assert (Hx' : existsb (fun v => negb (in_unit v)) (data input) = true).
        { apply existsb_exists. exists e. now rewrite He. }
        congruence.
  - split; [discriminate|]. intros (Hsh & _).
    rewrite Hsh, shape_eqb_refl in Hs. discriminate.
Qed.

Lemma binary_cross_entropy_ok (input target : Tensor F) (v : F) :
  binary_cross_entropy input target = Ok v ->
  shape target = shape input /\
  forallb in_unit (data input) = true /\
  v = fold_left fadd (map2 bce_elem (data input) (data target)) fzero.
Proof.
  unfold binary_cross_entropy.
  destruct (shape_eqb _ _) eqn:Hs; [|discriminate].
  destruct (forallb _ _) eqn:Hr; [|discriminate].
  intros [= <-]. apply shape_eqb_eq in Hs. auto.
Qed.

End LossFacts.

(* ===================================================================== *)
(** * The metric selector                                                 *)
(* ===================================================================== *)

Section Selector.
Context {F : Type} `{Scalar F}.

(** C9.  Every selector other than the exact string "BCE" (a misspelling,
    any other string) is accepted and treated as "MSE": the call evaluates
    the three terms and returns the squared-error term plus the KL term;
    the only exceptions it can raise are those of the three terms, never
    one about the selector. *)
Theorem loss_function_selector_falls_back
    (recon_x x mu logvar : Tensor F) (recon_type : string) :
  recon_type <> "BCE"%string ->
  loss_function recon_x x mu logvar recon_type
  = loss_function recon_x x mu logvar "MSE"
  /\ loss_function recon_x x mu logvar recon_type
     = (let? _ := BCE_term recon_x x in
        let? MSE := MSE_term recon_x x in
        let? KLD := KLD_term mu logvar in
        Ok (fadd MSE KLD))%result.
Proof.
  intros Hsel. apply String.eqb_neq in Hsel.
  unfold loss_function. rewrite Hsel. split; reflexivity.
Qed.

(** C10.  The cross-entropy term is evaluated first and whatever the
    selector: an exception it raises is the outcome of the call for every
    selector, "MSE" included.  So a call that returns has every element of
    the reconstruction in the unit interval, and the range exception of the
    cross-entropy is the outcome exactly when the image batch reshapes to
    the size of the reconstruction and some element of the reconstruction
    is outside the unit interval. *)
Theorem loss_function_needs_unit_interval
    (recon_x x mu logvar : Tensor F) (recon_type : string) :
  (forall e, BCE_term recon_x x = Err e ->
             loss_function recon_x x mu logvar recon_type = Err e)
  /\ (forall v, loss_function recon_x x mu logvar recon_type = Ok v ->
                forall e, In e (data recon_x) -> in_unit e = true)
  /\ (BCE_term recon_x x = Err InputRange <->
      exists xv, view x [-1; 3072]%Z = Ok xv /\ shape xv = shape recon_x /\
                 exists e, In e (data recon_x) /\ in_unit e = false).
Proof.
  split; [|split].
  - intros e He. unfold loss_function. now rewrite He.
  - intros v Hv e Hin. unfold loss_function in Hv.
    apply rbind_ok_inv in Hv as (bce & Hb & _).
    unfold BCE_term in Hb. apply rbind_ok_inv in Hb as (xv & _ & Hb).
    apply binary_cross_entropy_ok in Hb as (_ & Hr & _).
    rewrite forallb_forall in Hr. now apply Hr.
  - unfold BCE_term. destruct (view x [-1; 3072]%Z) as [xv|e] eqn:Hv; simpl.
    + rewrite binary_cross_entropy_range. split.
      * intros (Hs & He). now exists xv.
      * intros (xv' & [= <-] & Hs & He). auto.
    + split.
      * intros [= ->]. unfold view in Hv.
        destruct (existsb _ _); [discriminate|].
        destruct (length _ - length _) as [|[|n]]; try discriminate;
          [destruct (Nat.eqb _ _) | destruct (orb _ _)]; discriminate.
      * intros (xv & Hxv & _). discriminate.
Qed.

End Selector.

(** C9 on a misspelt selector. *)
Lemma loss_function_selector_falls_back_witness :
  "mse"%string <> "BCE"%string /\
  loss_function (full [1; 3072] Fixture.half) (Fixture.image Binary32.pzero)
    (zeros [1; 128]) (zeros [1; 128]) "mse"
  = loss_function (full [1; 3072] Fixture.half) (Fixture.image Binary32.pzero)
      (zeros [1; 128]) (zeros [1; 128]) "MSE".
Proof.
  assert (Hsel : "mse"%string <> "BCE"%string) by discriminate.
  split; [exact Hsel|].
  exact (proj1 (loss_function_selector_falls_back
                  (full [1; 3072] Fixture.half) (Fixture.image Binary32.pzero)
                  (zeros [1; 128]) (zeros [1; 128]) Hsel)).
Defined.

(* ===================================================================== *)
(** * The loss function over the real numbers                             *)
(* ===================================================================== *)

Section IdealFacts.
Import Ideal.
Local Open Scope R_scope.

Lemma fold_left_Rplus (l : list R) (a : R) :
  fold_left Rplus l a = a + fold_right Rplus 0 l.
Proof.
  revert a; induction l as [|x l IH]; intros a; simpl; [lra|].
  rewrite IH. lra.
Qed.

Lemma Rsum_ext (n : nat) (f g : nat -> R) :
  (forall k, (k < n)%nat -> f k = g k) -> Rsum n f = Rsum n g.
Proof.
  intros E. unfold Rsum. f_equal. apply map_ext_in.
  intros k Hk. apply in_seq in Hk. apply E. lia.
Qed.

Lemma Rsum_shift (n m : nat) (f : nat -> R) :
  fold_right Rplus 0 (map f (seq m n))
  = Rsum n (fun k => f (m + k)%nat).
Proof.
  unfold Rsum. f_equal.
  replace (seq m n) with (map (Nat.add m) (seq 0 n)).
  - now rewrite map_map.
  - clear f. revert m. induction n as [|n IH]; intros m; [reflexivity|].
    rewrite !seq_S, !map_app, IH. simpl. reflexivity.
Qed.

Lemma Rsum_add (n m : nat) (f : nat -> R) :
  Rsum (n + m) f = Rsum n f + Rsum m (fun k => f (n + k)%nat).
Proof.
  rewrite <- Rsum_shift. unfold Rsum at 1 2.
  rewrite seq_app, map_app. simpl.
  generalize (map f (seq 0 n)) as l, (map f (seq n m)) as l'.
  induction l as [|x l IH]; intros l'; simpl; [lra|]. rewrite IH. lra.
Qed.

(** A sum over the elements of a list is a sum over its positions. *)
Lemma fold_right_Rsum (l : list R) :
  fold_right Rplus 0 l = Rsum (length l) (fun k => nth k l 0).
Proof.
  induction l as [|x l IH]; [reflexivity|].
  change (length (x :: l)) with (1 + length l)%nat.
  rewrite Rsum_add. unfold Rsum at 1. simpl. rewrite IH. lra.
Qed.

(** A sum over the positions of [N] rows of [D] entries is a sum over the
    rows of the sums over each row. *)
Lemma Rsum_one (f : nat -> R) : Rsum 1 f = f 0%nat.
Proof. unfold Rsum; simpl. lra. Qed.

Lemma Rsum_rows (N D : nat) (f : nat -> R) :
  Rsum (N * D) f = Rsum N (fun i => Rsum D (fun j => f (i * D + j)%nat)).
Proof.
  revert f; induction N as [|N IH]; intros f; [reflexivity|].
  change (S N * D)%nat with (D + N * D)%nat. rewrite Rsum_add, IH.
  change (S N) with (1 + N)%nat. rewrite (Rsum_add 1 N), Rsum_one.
  f_equal.
  apply Rsum_ext. intros i _. apply Rsum_ext. intros j _.
  f_equal. lia.
Qed.

(** Over the reals the order in which [torch.sum] accumulates does not
    matter. *)
Lemma tsum_any_order (a b : Tensor R) :
  Permutation (data a) (data b) -> tsum a = tsum b.
Proof.
  intros P. unfold tsum; cbn [fadd fzero R_scalar].
  rewrite !fold_left_Rplus. f_equal.
  induction P as [|x l l' _ IH|x y l|l l' l'' _ IH1 _ IH2]; simpl; lra.
Qed.

Lemma fold_left_Rplus_nonneg (l : list R) :
  Forall (fun v => 0 <= v) l -> 0 <= fold_left Rplus l 0.
Proof.
  intros Hl. rewrite fold_left_Rplus, Rplus_0_l.
  induction Hl as [|x l Hx _ IH]; simpl; lra.
Qed.

Lemma fold_left_Rplus_repeat (c : R) (n : nat) :
  fold_left Rplus (repeat c n) 0 = INR n * c.
Proof.
  rewrite fold_left_Rplus, Rplus_0_l.
  induction n as [|n IH]; [simpl; lra|].
  rewrite S_INR. simpl repeat. simpl fold_right. rewrite IH. lra.
Qed.

Lemma in_unit_R (v : R) : in_unit v = true <-> 0 <= v <= 1.
Proof.
  unfold in_unit; simpl. unfold Rleb.
  destruct (Rle_dec 0 v), (Rle_dec v 1); simpl; split;
    try discriminate; try lra; auto.
Qed.

Lemma clog_nonpos (v : R) : v <= 1 -> clog v <= 0.
Proof.
  intros Hv. unfold clog. destruct (Rle_dec v 0) as [|Hpos]; [lra|].
  apply Rmax_lub; [|lra].
  destruct (Req_dec v 1) as [->|Hne]; [rewrite ln_1; lra|].
  rewrite <- ln_1. left. apply ln_increasing; lra.
Qed.

Lemma bce_elem_nonneg (x y : R) :
  0 <= x <= 1 -> 0 <= y <= 1 -> 0 <= bce_elem x y.
Proof.
  intros Hx Hy. unfold bce_elem; simpl.
  pose proof (clog_nonpos (v := 1 - x)) as H1.
  pose proof (clog_nonpos (v := x)) as H2.
  assert (clog (1 - x) <= 0) by (apply H1; lra).
  assert (clog x <= 0) by (apply H2; lra).
  nra.
Qed.

Lemma map2_Forall (f : R -> R -> R) (P Q T : R -> Prop) (a b : list R) :
  (forall x y, P x -> Q y -> T (f x y)) ->
  Forall P a -> Forall Q b -> Forall T (map2 f a b).
Proof.
  intros Hf Ha; revert b; induction Ha as [|x a Hx _ IH]; intros b Hb;
    simpl; [constructor|].
  destruct Hb as [|y b Hy Hb]; constructor; auto.
Qed.

Lemma sq_diff_all_nonneg (a b : list R) :
  Forall (fun v => 0 <= v) (map2 sq_diff a b).
Proof.
  apply map2_Forall with (P := fun _ => True) (Q := fun _ => True).
  - intros x y _ _. unfold sq_diff; simpl. apply (Rle_0_sqr (x - y)).
  - apply Forall_forall; auto.
  - apply Forall_forall; auto.
Qed.

Lemma kld_elem_prior : kld_elem 0 0 = 0.
Proof. unfold kld_elem; simpl. rewrite exp_0. lra. Qed.

End IdealFacts.

(* ===================================================================== *)
(** * The loss function on constant tensors                               *)
(* ===================================================================== *)

Section UniformBatches.
Context {F : Type} `{Scalar F}.

Lemma numel_image_batch (n : nat) : numel_of [n; 3; 32; 32] = n * 3072.
Proof. unfold numel_of. simpl fold_right. lia. Qed.

Lemma numel_matrix (n d : nat) : numel_of [n; d] = n * d.
Proof. unfold numel_of. simpl fold_right. lia. Qed.

Lemma view_rows_ok (t : Tensor F) (n : nat) :
  numel t = n * 3072 ->
  view t [-1; 3072]%Z = Ok (mkTensor [n; 3072] (data t)).
Proof.
  intros Hn. unfold view.
  change (known_dims [-1; 3072]%Z) with [3072%Z].
  change (existsb (fun d => (d <? 0)%Z) [3072%Z]) with false.
  change (length [-1; 3072]%Z - length [3072%Z]) with 1.
  change (numel_of (map Z.to_nat [3072%Z])) with 3072.
  cbv iota beta.
  rewrite Hn, Nat.Div0.mod_mul, Nat.div_mul by discriminate.
  reflexivity.
Qed.

Lemma binary_cross_entropy_same_shape (input target : Tensor F) :
  shape target = shape input ->
  forallb in_unit (data input) = true ->
  binary_cross_entropy input target
  = Ok (fold_left fadd (map2 bce_elem (data input) (data target)) fzero).
Proof.
  intros Hs Hr. unfold binary_cross_entropy.
  now rewrite Hs, shape_eqb_refl, Hr.
Qed.

Lemma mse_loss_same_shape (input target : Tensor F) :
  shape input = shape target -> wf input -> wf target ->
  mse_loss input target
  = Ok (fold_left fadd (map2 sq_diff (data input) (data target)) fzero).
Proof.
  intros Hs Hi Ht. unfold mse_loss.
  now rewrite binop_same_shape.
Qed.

Lemma wf_rows (n : nat) (b : F) :
  wf (mkTensor [n; 3072] (data (full [n; 3; 32; 32] b))).
Proof.
  unfold wf, numel, full; cbn [shape data].
  now rewrite repeat_length, numel_image_batch, numel_matrix.
Qed.

(** The squared-error term on [n] images, reconstruction and images each
    constant. *)
Lemma MSE_term_uniform (n : nat) (a b : F) :
  MSE_term (full [n; 3072] a) (full [n; 3; 32; 32] b)
  = Ok (fold_left fadd (repeat (sq_diff a b) (n * 3072)) fzero).
Proof.
  unfold MSE_term.
  rewrite (@view_rows_ok _ n) by apply numel_image_batch.
  cbn [rbind].
  rewrite mse_loss_same_shape;
    [ | reflexivity | apply wf_full | apply wf_rows ].
  unfold full; cbn [data].
  now rewrite numel_image_batch, numel_matrix, map2_repeat.
Qed.

Lemma BCE_term_uniform (n : nat) (a b : F) :
  in_unit a = true ->
  BCE_term (full [n; 3072] a) (full [n; 3; 32; 32] b)
  = Ok (fold_left fadd (repeat (bce_elem a b) (n * 3072)) fzero).
Proof.
  intros Ha. unfold BCE_term.
  rewrite (@view_rows_ok _ n) by apply numel_image_batch.
  cbn [rbind].
  rewrite binary_cross_entropy_same_shape;
    [ | reflexivity | now apply forallb_repeat ].
  unfold full; cbn [data].
  now rewrite numel_image_batch, numel_matrix, map2_repeat.
Qed.

Lemma KLD_term_uniform (s : list nat) (m l : F) :
  KLD_term (full s m) (full s l)
  = Ok (fmul fneg_half
          (fold_left fadd (repeat (kld_elem m l) (numel_of s)) fzero)).
Proof.
  rewrite KLD_term_same_shape; [ | reflexivity | apply wf_full | apply wf_full ].
  unfold full; cbn [data]. now rewrite map2_repeat.
Qed.

(** The loss with the squared-error metric on such a batch. *)
Lemma loss_function_uniform (n D : nat) (a b m l : F) :
  in_unit a = true ->
  loss_function (full [n; 3072] a) (full [n; 3; 32; 32] b)
    (full [n; D] m) (full [n; D] l) "MSE"
  = Ok (fadd (fold_left fadd (repeat (sq_diff a b) (n * 3072)) fzero)
          (fmul fneg_half
             (fold_left fadd (repeat (kld_elem m l) (n * D)) fzero))).
Proof.
  intros Ha. rewrite loss_function_MSE.
  rewrite BCE_term_uniform by exact Ha.
  rewrite MSE_term_uniform, KLD_term_uniform.
  cbn [rbind]. now rewrite numel_matrix.
Qed.

End UniformBatches.

(* ===================================================================== *)
(** * The loss function in single precision                               *)
(* ===================================================================== *)

Section Binary32Facts.
Import Binary32.
Variables expf logf : float32 -> float32.

Lemma f32_kld_elem_pzero :
  expf pzero = one ->
  @kld_elem _ (f32_scalar expf logf) pzero pzero = pzero.
Proof.
  intros E0. unfold kld_elem; cbn [fadd fsub fmul fexp fone f32_scalar].
  rewrite E0. reflexivity.
Qed.

Lemma f32_kld_elem_zero (m l : float32) :
  expf pzero = one -> expf nzero = one ->
  is_zero m = true -> is_zero l = true ->
  @kld_elem _ (f32_scalar expf logf) m l = pzero.
Proof.
  intros E0 E1.
  destruct m as [sm| | |], l as [sl| | |]; try discriminate. intros _ _.
  unfold kld_elem; cbn [fadd fsub fmul fexp fone f32_scalar].
  destruct sl; [change (S754_zero true) with nzero; rewrite E1
               | change (S754_zero false) with pzero; rewrite E0];
    destruct sm; reflexivity.
Qed.

Lemma f32_sum_zeros (l : list float32) :
  Forall (fun v => is_zero v = true) l ->
  fold_left (SFadd prec emax) l pzero = pzero.
Proof.
  induction 1 as [|x l Hx _ IH]; [reflexivity|]. simpl.
  destruct x as [s| | |]; try discriminate. now destruct s.
Qed.

Lemma f32_kld_all_zero (m l : list float32) :
  expf pzero = one -> expf nzero = one ->
  Forall (fun v => is_zero v = true) m ->
  Forall (fun v => is_zero v = true) l ->
  Forall (fun v => is_zero v = true)
    (map2 (@kld_elem _ (f32_scalar expf logf)) m l).
Proof.
  intros E0 E1 Hm; revert l; induction Hm as [|x m Hx _ IH]; intros l Hl;
    cbn [map2]; [constructor|].
  destruct Hl as [|y l Hy Hl]; constructor.
  - now rewrite f32_kld_elem_zero.
  - now apply IH.
Qed.

(** The KL term when every mean and every log-variance is a zero of
    either sign. *)
Lemma f32_KLD_term_prior (mu logvar : Tensor float32) :
  expf pzero = one -> expf nzero = one ->
  shape mu = shape logvar -> wf mu -> wf logvar ->
  Forall (fun v => is_zero v = true) (data mu) ->
  Forall (fun v => is_zero v = true) (data logvar) ->
  @KLD_term _ (f32_scalar expf logf) mu logvar = Ok nzero.
Proof.
  intros E0 E1 Hs Hm Hl Zm Zl. rewrite KLD_term_same_shape by assumption.
  cbn [fadd fmul fneg_half fzero f32_scalar].
  rewrite f32_sum_zeros by now apply f32_kld_all_zero.
  reflexivity.
Qed.

Lemma f32_sum_quarters :
  fold_left (SFadd prec emax) (repeat (of_Z 1 (-2)) (2 * 3072)) pzero
  = of_Z 1536 0.
Proof. vm_compute. reflexivity. Qed.

End Binary32Facts.

(* ===================================================================== *)
(** * The KL term and the reconstruction terms                            *)
(* ===================================================================== *)

Section LossProperties.
Import Ideal Binary32.

Lemma KLD_term_KL_spec (N D : nat) (mu logvar : Tensor R) :
  shape mu = [N; D] -> shape logvar = [N; D] -> wf mu -> wf logvar ->
  KLD_term mu logvar = Ok (KL_spec N D (entry D mu) (entry D logvar)).
Proof.
  intros Hm Hl Wm Wl.
  assert (Lm : length (data mu) = (N * D)%nat).
  { unfold wf, numel in Wm. now rewrite Wm, Hm, numel_matrix. }
  assert (Ll : length (data logvar) = (N * D)%nat).
  { unfold wf, numel in Wl. now rewrite Wl, Hl, numel_matrix. }
  rewrite KLD_term_same_shape by congruence.
  f_equal. unfold KL_spec. cbn [fmul fneg_half fadd fzero R_scalar].
  rewrite fold_left_Rplus, Rplus_0_l, fold_right_Rsum.
  rewrite map2_length, Lm by congruence.
  rewrite Rsum_rows.
  replace (- (1 / 2))%R with (-0.5)%R by lra. f_equal.
  apply Rsum_ext. intros i Hi. apply Rsum_ext. intros j Hj.
  assert (Hk : (i * D + j < N * D)%nat) by nia.
  rewrite <- kld_elem_prior at 1.
  rewrite map2_nth by (rewrite ?Lm; congruence || exact Hk).
  unfold kld_elem, entry; simpl. lra.
Qed.

Lemma fold_left_summed {A} (add : A -> A -> A) (zero : A) (l : list A) :
  summed add zero l (fold_left add l zero).
Proof.
  induction l as [|x l IH] using rev_ind; [constructor|].
  rewrite fold_left_app. simpl. apply summed_add; [exact IH | constructor].
Qed.

(** Over the reals every order of summation gives the sum. *)
Lemma summed_exact (l : list R) (v : R) :
  summed Rplus 0%R l v -> v = fold_right Rplus 0%R l.
Proof.
  induction 1 as [| x | l1 l2 a b _ IH1 _ IH2 | l l' a Hp _ IH].
  - reflexivity.
  - simpl. lra.
  - subst a b. induction l1 as [|y l1 IHl]; simpl; [lra|].
    rewrite <- IHl. lra.
  - subst a. clear -Hp. induction Hp; simpl; lra.
Qed.

(** C2.  For [N] examples and [D] latent dimensions, the KL term that
    [loss_function] computes is
    [-0.5 * sum over examples i and latent dimensions j of
            (1 + logvar[i,j] - mu[i,j]^2 - exp(logvar[i,j]))],
    a sum and not a mean (first part, exact arithmetic).  In single
    precision it is [-0.5] times a floating-point sum of the same terms,
    each term computed as [((1 + logvar) - mu*mu) - exp(logvar)], again
    with no division; nothing is said about the order in which the terms
    are accumulated (second part). *)
Theorem KLD_term_is_summed_kl :
  (forall (N D : nat) (mu logvar : Tensor R),
      shape mu = [N; D] -> shape logvar = [N; D] -> wf mu -> wf logvar ->
      KLD_term mu logvar = Ok (KL_spec N D (entry D mu) (entry D logvar)))
  /\
  (forall (expf logf : float32 -> float32) (N D : nat)
          (mu logvar : Tensor float32),
      shape mu = [N; D] -> shape logvar = [N; D] -> wf mu -> wf logvar ->
      exists s,
        summed (SFadd prec emax) pzero
          (map2 (fun m lv =>
                   SFsub prec emax
                     (SFsub prec emax (SFadd prec emax one lv)
                        (SFmul prec emax m m))
                     (expf lv))
             (data mu) (data logvar))
          s /\
        @KLD_term _ (f32_scalar expf logf) mu logvar
        = Ok (SFmul prec emax neg_half s)).
Proof.
  split.
  - exact KLD_term_KL_spec.
  - intros expf logf N D mu logvar Hm Hl Wm Wl.
    rewrite KLD_term_same_shape by congruence.
    eexists. split; [apply fold_left_summed | reflexivity].
Qed.

(** C5.  When every mean and every log-variance of the batch is zero, the
    KL term is zero: exactly [0] in exact arithmetic, for a batch of any
    size (first part); in single precision, whatever the signs of the
    zeros, the zero [-0.0], which compares equal to [0] (second part; the
    library's exponential is only assumed to return 1 at zero). *)
Theorem KLD_term_zero_at_prior :
  (forall s : list nat,
      KLD_term (zeros s : Tensor R) (zeros s) = Ok 0%R)
  /\
  (forall (expf logf : float32 -> float32) (mu logvar : Tensor float32),
      expf pzero = one -> expf nzero = one ->
      shape mu = shape logvar -> wf mu -> wf logvar ->
      Forall (fun v => is_zero v = true) (data mu) ->
      Forall (fun v => is_zero v = true) (data logvar) ->
      @KLD_term _ (f32_scalar expf logf) mu logvar = Ok nzero
      /\ SFeqb nzero pzero = true).
Proof.
  split.
  - intros s. unfold zeros. rewrite KLD_term_uniform.
    cbn [fzero fadd fmul fneg_half R_scalar].
    rewrite kld_elem_prior, fold_left_Rplus_repeat. f_equal. lra.
  - intros expf logf mu logvar E0 E1 Hs Wm Wl Zm Zl. split; [|reflexivity].
    now apply f32_KLD_term_prior.
Qed.

(** C6.  On two all-zero images (size 2x3x32x32), a reconstruction whose
    6144 entries are all 0.5, and zero means and log-variances for both
    examples, [loss_function] with the squared-error metric returns 1536:
    the squared-error term is 1536 and the KL term is zero.  This holds in
    exact arithmetic (first part) and, bit for bit, in single precision
    (second part). *)
Theorem loss_function_scenario_1536 :
  (forall D : nat,
      MSE_term (full [2; 3072] (1 / 2)%R) (zeros [2; 3; 32; 32]) = Ok 1536%R
      /\ KLD_term (zeros [2; D] : Tensor R) (zeros [2; D]) = Ok 0%R
      /\ loss_function (full [2; 3072] (1 / 2)%R) (zeros [2; 3; 32; 32])
           (zeros [2; D]) (zeros [2; D]) "MSE" = Ok 1536%R)
  /\
  (forall (expf logf : float32 -> float32) (D : nat),
      expf pzero = one ->
      @loss_function _ (f32_scalar expf logf)
        (full [2; 3072] (of_Z 1 (-1)))
        (@zeros _ (f32_scalar expf logf) [2; 3; 32; 32])
        (@zeros _ (f32_scalar expf logf) [2; D])
        (@zeros _ (f32_scalar expf logf) [2; D]) "MSE"
      = Ok (of_Z 1536 0)).
Proof.
  split.
  - intros D.
    assert (Hu : in_unit (1 / 2)%R = true) by (apply in_unit_R; lra).
    assert (Hsum : fold_left Rplus
                     (repeat (sq_diff (1 / 2) 0)%R (2 * 3072)) 0%R = 1536%R).
    { rewrite fold_left_Rplus_repeat, INR_IZR_INZ.
      replace (Z.of_nat (2 * 3072)) with 6144%Z by (vm_compute; reflexivity).
      unfold sq_diff; simpl. lra. }
    unfold zeros. rewrite MSE_term_uniform, KLD_term_uniform.
    rewrite loss_function_uniform by exact Hu.
    cbn [fzero fadd fmul fneg_half R_scalar].
    rewrite Hsum, kld_elem_prior, !fold_left_Rplus_repeat.
    repeat split; f_equal; lra.
  - intros expf logf D E0. unfold zeros.
    rewrite loss_function_uniform by reflexivity.
    cbn [fzero fadd fmul fneg_half f32_scalar].
    rewrite f32_kld_elem_pzero by assumption.
    rewrite (@f32_sum_zeros (repeat pzero (2 * D)))
      by (apply Forall_forall; intros v Hv; apply repeat_spec in Hv;
          now subst v).
    change (@sq_diff _ (f32_scalar expf logf) (of_Z 1 (-1)) pzero)
      with (of_Z 1 (-2)).
    rewrite f32_sum_quarters. reflexivity.
Qed.

(** C7.  In exact arithmetic, when every value of the reconstruction and
    of the image batch lies in the unit interval, both reconstruction terms
    are non-negative: the cross-entropy term and the squared-error term,
    whenever they are defined.  And they are defined when the reconstruction
    has size [n x 3072] and the image batch has [n * 3072] elements. *)
Theorem reconstruction_terms_nonneg (recon_x x : Tensor R) :
  (forall e, In e (data recon_x) -> 0 <= e <= 1)%R ->
  (forall e, In e (data x) -> 0 <= e <= 1)%R ->
  (forall bce, BCE_term recon_x x = Ok bce -> 0 <= bce)%R
  /\ (forall mse, MSE_term recon_x x = Ok mse -> 0 <= mse)%R
  /\ (forall n, shape recon_x = [n; 3072] -> numel x = n * 3072 ->
                wf recon_x -> wf x ->
                exists bce mse, BCE_term recon_x x = Ok bce /\
                                MSE_term recon_x x = Ok mse).
Proof.
  intros Hr Hx. split; [|split].
  - intros bce E. unfold BCE_term in E.
    apply rbind_ok_inv in E as (xv & Hv & E).
    apply view_data in Hv.
    apply binary_cross_entropy_ok in E as (_ & _ & ->).
    cbn [fadd fzero R_scalar]. apply fold_left_Rplus_nonneg.
    rewrite Hv.
    apply map2_Forall with (P := fun e => (0 <= e <= 1)%R)
                           (Q := fun e => (0 <= e <= 1)%R).
    + intros a b. apply bce_elem_nonneg.
    + now apply Forall_forall.
    + now apply Forall_forall.
  - intros mse E. unfold MSE_term in E.
    apply rbind_ok_inv in E as (xv & _ & E).
    unfold mse_loss in E. apply rbind_ok_inv in E as (d & Hd & [= <-]).
    unfold binop in Hd. destruct (broadcast_shapes _ _); [|discriminate].
    injection Hd as <-. unfold tsum; cbn [data fadd fzero R_scalar].
    apply fold_left_Rplus_nonneg, sq_diff_all_nonneg.
  - intros n Hs Hn Wr Wx. unfold BCE_term, MSE_term.
    rewrite (@view_rows_ok _ x n Hn). cbn [rbind].
    rewrite binary_cross_entropy_same_shape.
    + rewrite mse_loss_same_shape; [eauto | exact Hs | exact Wr |].
      unfold wf, numel in *; cbn [shape data].
      now rewrite Wx, Hn, numel_matrix.
    + now rewrite Hs.
    + apply forallb_forall. intros e He. apply in_unit_R. now apply Hr.
Qed.

End LossProperties.

Section LossInstances.
Import Ideal Binary32 Fixture.
Local Open Scope R_scope.

(** C2 on one example with two latent dimensions. *)
Lemma KLD_term_is_summed_kl_witness :
  (shape muR = [1; 2]%nat /\ shape lvR = [1; 2]%nat /\ wf muR /\ wf lvR /\
   KLD_term muR lvR = Ok (KL_spec 1 2 (entry 2 muR) (entry 2 lvR)))
  /\ exists s,
       summed (SFadd prec emax) pzero
         (map2 (fun m lv =>
                  SFsub prec emax
                    (SFsub prec emax (SFadd prec emax one lv)
                       (SFmul prec emax m m))
                    (Fixture.expf lv))
            (data muF) (data lvF))
         s /\
       KLD_term muF lvF = Ok (SFmul prec emax neg_half s).
Proof.
  split.
  - repeat split.
    exact (proj1 KLD_term_is_summed_kl 1%nat 2%nat muR lvR
             eq_refl eq_refl eq_refl eq_refl).
  - exact (proj2 KLD_term_is_summed_kl Fixture.expf Fixture.logf
             1%nat 2%nat muF lvF eq_refl eq_refl eq_refl eq_refl).
Defined.

(** C5 on zeros of both signs. *)
Lemma KLD_term_zero_at_prior_witness :
  Fixture.expf pzero = one /\ Fixture.expf nzero = one /\
  shape muF = shape lvF /\ wf muF /\ wf lvF /\
  Forall (fun v => is_zero v = true) (data muF) /\
  Forall (fun v => is_zero v = true) (data lvF) /\
  KLD_term muF lvF = Ok nzero /\ SFeqb nzero pzero = true.
Proof.
  assert (Zm : Forall (fun v => is_zero v = true) (data muF))
    by (repeat constructor).
  assert (Zl : Forall (fun v => is_zero v = true) (data lvF))
    by (repeat constructor).
  do 7 (split; [first [reflexivity | assumption]|]).
  exact (proj2 KLD_term_zero_at_prior Fixture.expf Fixture.logf muF lvF
           eq_refl eq_refl eq_refl eq_refl eq_refl Zm Zl).
Defined.

(** C6 with the polynomial exponential and 128 latent dimensions. *)
Lemma loss_function_scenario_1536_witness :
  Fixture.expf pzero = one /\
  loss_function (full [2; 3072]%nat (of_Z 1 (-1))) (zeros [2; 3; 32; 32]%nat)
    (zeros [2; 128]%nat) (zeros [2; 128]%nat) "MSE"
  = Ok (of_Z 1536 0).
Proof.
  split; [reflexivity|].
  exact (proj2 loss_function_scenario_1536 Fixture.expf Fixture.logf
           128%nat eq_refl).
Defined.

(** C7 on a grey reconstruction of a black image. *)
Lemma reconstruction_terms_nonneg_witness :
  (forall e, In e (data reconR) -> 0 <= e <= 1) /\
  (forall e, In e (data xR) -> 0 <= e <= 1) /\
  (exists bce mse, BCE_term reconR xR = Ok bce /\ MSE_term reconR xR = Ok mse
                   /\ 0 <= bce /\ 0 <= mse).
Proof.
  assert (Hr : forall e, In e (data reconR) -> 0 <= e <= 1).
  { intros e He. apply repeat_spec in He. subst e. lra. }
  assert (Hx : forall e, In e (data xR) -> 0 <= e <= 1).
  { intros e He. apply repeat_spec in He. subst e. lra. }
  split; [exact Hr|]. split; [exact Hx|].
  destruct (reconstruction_terms_nonneg reconR xR Hr Hx) as (Hb & Hm & Hdef).
  destruct (Hdef 1%nat eq_refl eq_refl (wf_full _ _) (wf_full _ _))
    as (bce & mse & Eb & Em).
  exists bce, mse. repeat split; auto.
Defined.

End LossInstances.

(* ===================================================================== *)
(** * Facts about the script's statements                                 *)
(* ===================================================================== *)

Section ScriptFacts.
Context {F : Type} `{Scalar F} `{Imports F}.

Lemma bind_ok_inv {S A B} (c : M S A) (k : A -> M S B) (s s' : S) (b : B) :
  bind c k s = (Ok b, s') ->
  exists a s1, c s = (Ok a, s1) /\ k a s1 = (Ok b, s').
Proof.
  unfold bind. destruct (c s) as [[a|e] s1]; intros E; [eauto | discriminate].
Qed.

Lemma bind_ok_intro {S A B} (c : M S A) (k : A -> M S B) (s s1 : S) (a : A) :
  c s = (Ok a, s1) -> bind c k s = k a s1.
Proof. unfold bind. now intros ->. Qed.

Lemma lift_ok_inv {S A} (r : result A) (s s' : S) (a : A) :
  lift r s = (Ok a, s') -> r = Ok a /\ s' = s.
Proof. unfold lift. now intros [= -> ->]. Qed.

(** ** The frame of a statement *)

Lemma same_model_refl (w : World F) : same_model w w.
Proof. now repeat split. Qed.

Lemma same_model_trans (w1 w2 w3 : World F) :
  same_model w1 w2 -> same_model w2 w3 -> same_model w1 w3.
Proof. unfold same_model. intuition congruence. Qed.

Lemma frame_bind {A B} (c : M (World F) A) (k : A -> M (World F) B) :
  frame c -> (forall a, frame (k a)) -> frame (bind c k).
Proof.
  intros Hc Hk w. unfold bind. specialize (Hc w).
  destruct (c w) as [[a|e] w1]; simpl in *; [|exact Hc].
  eapply same_model_trans; [exact Hc | apply Hk].
Qed.

Lemma frame_ret {A} (a : A) : frame (ret a).
Proof. intros w. apply same_model_refl. Qed.

Lemma frame_lift {A} (r : result A) : frame (lift r).
Proof. intros w. apply same_model_refl. Qed.

Lemma frame_set_training (b : bool) : frame (set_training b).
Proof. intros w. now repeat split. Qed.

Lemma frame_with_rng {A} (f : Rng -> A * Rng) : frame (with_rng f).
Proof.
  intros w. unfold with_rng. destruct (f (w_rng w)). now repeat split.
Qed.

Lemma frame_emit (e : Event F) : frame (emit e).
Proof. intros w. now repeat split. Qed.

Lemma frame_model_call (x : Tensor F) : frame (model_call x).
Proof.
  intros w. unfold model_call. destruct (forward _ _ _ _). now repeat split.
Qed.

Lemma frame_model_decode (z : Tensor F) : frame (model_decode z).
Proof. intros w. apply same_model_refl. Qed.

Ltac frame_step :=
  first [ apply frame_ret | apply frame_lift | apply frame_set_training
        | apply frame_with_rng | apply frame_emit | apply frame_model_call
        | apply frame_model_decode
        | apply frame_bind; [| intros ?] ].

Lemma frame_test_batch (g : Globals F) (epoch : Z) (ds : Dataset F)
    (i : nat) (idxs : list nat) (acc : F) :
  frame (test_batch g epoch ds i idxs acc).
Proof.
  unfold test_batch.
  frame_step; [frame_step|].
  frame_step; [frame_step|].
  match goal with a : (_ * _ * _)%type |- _ => destruct a as [[? ?] ?] end.
  frame_step; [frame_step|].
  frame_step; [|frame_step].
  destruct (i =? 0); repeat frame_step.
Qed.

Lemma frame_test_loop (g : Globals F) (epoch : Z) (ds : Dataset F)
    (batches : list (list nat)) :
  forall i acc, frame (test_loop g epoch ds batches i acc).
Proof.
  induction batches as [|idxs rest IH]; intros i acc; simpl.
  - apply frame_ret.
  - apply frame_bind; [apply frame_test_batch | intros a; apply IH].
Qed.

Lemma frame_test (g : Globals F) (epoch : Z) : frame (test g epoch).
Proof.
  unfold test, loader_batches.
  repeat first [ apply frame_test_loop | frame_step ].
Qed.

(** ** What one pass of a loop body accumulates *)

Lemma test_batch_loss (g : Globals F) (epoch : Z) (ds : Dataset F)
    (i : nat) (idxs : list nat) (acc acc' : F) (w w' : World F) :
  test_batch g epoch ds i idxs acc w = (Ok acc', w') ->
  exists loss, squared_error_loss_of w ds idxs loss /\ acc' = fadd acc loss.
Proof.
  unfold test_batch. intros E.
  apply bind_ok_inv in E as (data & w1 & E1 & E).
  apply lift_ok_inv in E1 as (Hf & ->).
  apply bind_ok_inv in E as ([[recon mu] logvar] & w2 & E2 & E).
  apply bind_ok_inv in E as (loss & w3 & E3 & E).
  apply lift_ok_inv in E3 as (Hl & ->).
  apply bind_ok_inv in E as (u & w4 & _ & E).
  injection E as <- _.
  apply loss_function_MSE_inv in Hl as (bce & mse & kld & _ & Hm & Hk & ->).
  unfold model_call in E2.
  destruct (forward (w_params w) (w_training w) data (w_rng w))
    as [r rng] eqn:Hfw.
  injection E2 as -> _.
  exists (fadd mse kld). split; [|reflexivity].
  now exists data, recon, mu, logvar, rng, mse, kld.
Qed.

Lemma train_batch_loss (g : Globals F) (epoch : Z) (ds : Dataset F)
    (k : nat) (idxs : list nat) (acc acc' : F) (w w' : World F) :
  train_batch g epoch ds k idxs acc w = (Ok acc', w') ->
  exists loss, squared_error_loss_of w ds idxs loss /\ acc' = fadd acc loss.
Proof.
  unfold train_batch. intros E.
  apply bind_ok_inv in E as (data & w1 & E1 & E).
  apply lift_ok_inv in E1 as (Hf & ->).
  apply bind_ok_inv in E as ([] & w2 & E2 & E).
  injection E2 as <-.
  apply bind_ok_inv in E as (r0 & w3 & E3 & E).
  injection E3 as <- <-.
  apply bind_ok_inv in E as ([[recon mu] logvar] & w4 & E4 & E).
  apply bind_ok_inv in E as (loss & w5 & E5 & E).
  apply lift_ok_inv in E5 as (Hl & ->).
  apply bind_ok_inv in E as ([] & w6 & _ & E).
  apply bind_ok_inv in E as ([] & w7 & _ & E).
  apply bind_ok_inv in E as (m & w8 & _ & E).
  apply bind_ok_inv in E as (u & w9 & _ & E).
  injection E as <- _.
  apply loss_function_MSE_inv in Hl as (bce & mse & kld & _ & Hm & Hk & ->).
  unfold model_call in E4; cbn [w_params w_training w_rng] in E4.
  destruct (forward (w_params w) (w_training w) data (w_rng w))
    as [r rng] eqn:Hfw.
  injection E4 as -> _.
  exists (fadd mse kld). split; [|reflexivity].
  now exists data, recon, mu, logvar, rng, mse, kld.
Qed.

(** The evaluation loop adds one loss per batch to its accumulator. *)
Lemma test_loop_accumulates (g : Globals F) (epoch : Z) (ds : Dataset F)
    (batches : list (list nat)) :
  forall i acc acc' w w',
    test_loop g epoch ds batches i acc w = (Ok acc', w') ->
    exists losses, length losses = length batches /\
                   acc' = fold_left fadd losses acc.
Proof.
  induction batches as [|idxs rest IH]; intros i acc acc' w w' E; simpl in E.
  - injection E as <- _. now exists [].
  - apply bind_ok_inv in E as (acc1 & w1 & E1 & E).
    apply test_batch_loss in E1 as (loss & _ & ->).
    apply IH in E as (losses & Hlen & ->).
    exists (loss :: losses). simpl. auto.
Qed.

(** ** The milestones a statement passes *)

Lemma stages_app (a b : list (Event F)) :
  stages (a ++ b) = stages a ++ stages b.
Proof.
  induction a as [|e a IH]; simpl; [reflexivity|].
  destruct (stage_of e); simpl; now rewrite IH.
Qed.

Lemma quiet_bind {A B} (c : M (World F) A) (k : A -> M (World F) B) :
  quiet c -> (forall a, quiet (k a)) -> quiet (bind c k).
Proof.
  intros Hc Hk w. unfold bind. specialize (Hc w).
  destruct (c w) as [[a|e] w1]; simpl in *; [|exact Hc].
  now rewrite Hk.
Qed.

Lemma quiet_same_out {A} (c : M (World F) A) :
  (forall w, w_out (snd (c w)) = w_out w) -> quiet c.
Proof. intros E w. now rewrite E. Qed.

Lemma quiet_ret {A} (a : A) : quiet (ret a).
Proof. now apply quiet_same_out. Qed.

Lemma quiet_lift {A} (r : result A) : quiet (lift r).
Proof. now apply quiet_same_out. Qed.

Lemma quiet_set_training (b : bool) : quiet (set_training b).
Proof. now apply quiet_same_out. Qed.

Lemma quiet_with_rng {A} (f : Rng -> A * Rng) : quiet (with_rng f).
Proof.
  apply quiet_same_out. intros w. unfold with_rng. now destruct (f (w_rng w)).
Qed.

Lemma quiet_model_call (x : Tensor F) : quiet (model_call x).
Proof.
  apply quiet_same_out. intros w. unfold model_call.
  now destruct (forward _ _ _ _).
Qed.

Lemma quiet_model_decode (z : Tensor F) : quiet (model_decode z).
Proof. now apply quiet_same_out. Qed.

Lemma quiet_zero_grad : quiet zero_grad.
Proof. now apply quiet_same_out. Qed.

Lemma quiet_get_rng : quiet get_rng.
Proof. now apply quiet_same_out. Qed.

Lemma quiet_loss_backward (rt : string) (x : Tensor F) (r0 : Rng) :
  quiet (loss_backward rt x r0).
Proof. now apply quiet_same_out. Qed.

Lemma quiet_optimizer_step : quiet optimizer_step.
Proof.
  apply quiet_same_out. intros w. unfold optimizer_step.
  now destruct (adam_step _ _ _).
Qed.

Lemma quiet_emit (e : Event F) : stage_of e = None -> quiet (emit e).
Proof.
  intros He w. unfold emit; simpl. rewrite stages_app; simpl.
  rewrite He. apply app_nil_r.
Qed.

Lemma reconstruction_file_is_no_sample (img : Tensor F) (s : string) (n : nat) :
  stage_of (SaveImage img ("results_c/reconstruction_" ++ s) n) = None.
Proof. reflexivity. Qed.

Lemma sample_file_is_sample (g : Globals F) (img : Tensor F) (epoch : Z)
    (n : nat) :
  stage_of (SaveImage img (sample_file g epoch) n)
  = Some (SampleSaved (sample_file g epoch)).
Proof.
  unfold stage_of, sample_file. cbn.
  now destruct (timestring g ++ str epoch ++ ".png")%string.
Qed.

Ltac quiet_step :=
  first [ apply quiet_ret | apply quiet_lift | apply quiet_set_training
        | apply quiet_with_rng | apply quiet_model_call
        | apply quiet_model_decode | apply quiet_zero_grad
        | apply quiet_get_rng | apply quiet_loss_backward
        | apply quiet_optimizer_step
        | apply quiet_emit; reflexivity
        | apply quiet_bind; [| intros ?] ].

Lemma quiet_train_batch (g : Globals F) (epoch : Z) (ds : Dataset F)
    (k : nat) (idxs : list nat) (acc : F) :
  quiet (train_batch g epoch ds k idxs acc).
Proof.
  unfold train_batch.
  do 3 (quiet_step; [quiet_step|]).
  quiet_step; [quiet_step|].
  match goal with a : (_ * _ * _)%type |- _ => destruct a as [[? ?] ?] end.
  do 4 (quiet_step; [quiet_step|]).
  quiet_step; [|quiet_step].
  destruct (_ =? 0)%Z; repeat quiet_step.
Qed.

Lemma quiet_train_loop (g : Globals F) (epoch : Z) (ds : Dataset F)
    (batches : list (list nat)) :
  forall k acc, quiet (train_loop g epoch ds batches k acc).
Proof.
  induction batches as [|idxs rest IH]; intros k acc; simpl.
  - apply quiet_ret.
  - apply quiet_bind; [apply quiet_train_batch | intros a; apply IH].
Qed.

Lemma quiet_test_batch (g : Globals F) (epoch : Z) (ds : Dataset F)
    (i : nat) (idxs : list nat) (acc : F) :
  quiet (test_batch g epoch ds i idxs acc).
Proof.
  unfold test_batch.
  quiet_step; [quiet_step|].
  quiet_step; [quiet_step|].
  match goal with a : (_ * _ * _)%type |- _ => destruct a as [[? ?] ?] end.
  quiet_step; [quiet_step|].
  quiet_step; [|quiet_step].
  destruct (i =? 0); repeat quiet_step.
Qed.

Lemma quiet_test_loop (g : Globals F) (epoch : Z) (ds : Dataset F)
    (batches : list (list nat)) :
  forall i acc, quiet (test_loop g epoch ds batches i acc).
Proof.
  induction batches as [|idxs rest IH]; intros i acc; simpl.
  - apply quiet_ret.
  - apply quiet_bind; [apply quiet_test_batch | intros a; apply IH].
Qed.

Lemma passes_quiet {A} (c : M (World F) A) : quiet c -> passes c [].
Proof.
  intros Hc w. exists [], []. split; [reflexivity|].
  split; [rewrite app_nil_r; apply Hc | reflexivity].
Qed.

Lemma passes_bind {A B} (c : M (World F) A) (k : A -> M (World F) B)
    (s1 s2 : list Stage) :
  passes c s1 -> (forall a, passes (k a) s2) -> passes (bind c k) (s1 ++ s2).
Proof.
  intros Hc Hk w. destruct (Hc w) as (r1 & m1 & -> & Hout1 & Hok1).
  unfold bind. destruct (c w) as [[a|e] w1] eqn:Ec; simpl in *.
  - rewrite (Hok1 a eq_refl), app_nil_r in *.
    destruct (Hk a w1) as (r2 & m2 & -> & Hout2 & Hok2).
    exists (r1 ++ r2), m2. rewrite Hout2, Hout1, !app_assoc. auto.
  - exists r1, (m1 ++ s2). rewrite app_assoc. repeat split; auto.
    discriminate.
Qed.

Lemma passes_after_quiet {A B} (c : M (World F) A) (k : A -> M (World F) B)
    (st : list Stage) :
  quiet c -> (forall a, passes (k a) st) -> passes (bind c k) st.
Proof.
  intros Hc Hk. change st with ([] ++ st).
  apply passes_bind; [now apply passes_quiet | exact Hk].
Qed.

Lemma passes_emit (e : Event F) (st : Stage) :
  stage_of e = Some st -> passes (emit e) [st].
Proof.
  intros He w. exists [st], []. unfold emit; simpl.
  rewrite stages_app; simpl. now rewrite He.
Qed.

Lemma passes_train (g : Globals F) (epoch : Z) :
  passes (train g epoch) [TrainDone epoch].
Proof.
  unfold train, loader_batches.
  repeat (apply passes_after_quiet;
          [ repeat first [ apply quiet_train_loop | quiet_step ] | intros ? ]).
  now apply passes_emit.
Qed.

Lemma passes_test (g : Globals F) (epoch : Z) :
  passes (test g epoch) [EvalDone].
Proof.
  unfold test, loader_batches.
  repeat (apply passes_after_quiet;
          [ repeat first [ apply quiet_test_loop | quiet_step ] | intros ? ]).
  now apply passes_emit.
Qed.

Lemma passes_sample_images (g : Globals F) (epoch : Z) :
  passes (sample_images g epoch) [SampleSaved (sample_file g epoch)].
Proof.
  unfold sample_images.
  repeat (apply passes_after_quiet; [ repeat quiet_step | intros ? ]).
  apply passes_emit. apply sample_file_is_sample.
Qed.

Lemma passes_epoch_body (g : Globals F) (epoch : Z) :
  passes (epoch_body g epoch) (epoch_stages g epoch).
Proof.
  unfold epoch_body, epoch_stages.
  apply passes_bind with (s1 := [TrainDone epoch])
                         (s2 := [EvalDone; SampleSaved (sample_file g epoch)]);
    [apply passes_train|].
  intros _.
  apply passes_bind with (s1 := [EvalDone])
                         (s2 := [SampleSaved (sample_file g epoch)]);
    [apply passes_test|].
  intros _. apply passes_sample_images.
Qed.

Lemma passes_for_each (g : Globals F) (l : list Z) :
  passes (for_each (epoch_body g) l) (flat_map (epoch_stages g) l).
Proof.
  induction l as [|epoch rest IH]; simpl.
  - apply passes_quiet, quiet_ret.
  - apply passes_bind with (s1 := epoch_stages g epoch)
                           (s2 := flat_map (epoch_stages g) rest);
      [apply passes_epoch_body | intros _; exact IH].
Qed.

(** ** The epochs of [main] *)

Lemma range_from_one (n : Z) :
  range 1 (n + 1) = map Z.of_nat (seq 1 (Z.to_nat n)).
Proof.
  unfold range. replace (n + 1 - 1)%Z with n by lia.
  rewrite <- seq_shift, map_map. apply map_ext. intros k. lia.
Qed.

Lemma sample_images_ok_iff (g : Globals F) (epoch : Z) (w w' : World F) :
  sample_images g epoch w = (Ok tt, w') <->
  exists z dec img rng,
    randn [64; 128] (w_rng w) = (z, rng) /\
    decode (w_params w) (w_training w) z = Ok dec /\
    view dec [64; 3; 32; 32]%Z = Ok img /\
    w' = after_sample g epoch w rng img.
Proof.
  unfold sample_images. split.
  - intros E.
    apply bind_ok_inv in E as (z & w1 & E1 & E).
    apply bind_ok_inv in E as (dec & w2 & E2 & E).
    apply bind_ok_inv in E as (img & w3 & E3 & E).
    apply lift_ok_inv in E3 as (Hv & ->).
    unfold with_rng in E1.
    destruct (randn [64; 128] (w_rng w)) as [z' rng] eqn:Hz.
    injection E1 as -> <-.
    unfold model_decode in E2; cbn [w_params w_training] in E2.
    injection E2 as Hd <-.
    unfold emit in E. injection E as <-.
    now exists z, dec, img, rng.
  - intros (z & dec & img & rng & Hz & Hd & Hv & ->).
    unfold bind, with_rng. rewrite Hz.
    unfold model_decode; cbn [w_params w_training]. rewrite Hd.
    unfold lift. rewrite Hv. reflexivity.
Qed.

Lemma for_each_epochs_run (g : Globals F) (l : list Z) :
  forall w w', for_each (epoch_body g) l w = (Ok tt, w') <->
               epochs_run g l w w'.
Proof.
  induction l as [|epoch rest IH]; intros w w'; simpl.
  - split.
    + intros [= <-]. constructor.
    + intros R. inversion R; subst. reflexivity.
  - split.
    + intros E. apply bind_ok_inv in E as ([] & w3 & E & Erest).
      unfold epoch_body in E.
      apply bind_ok_inv in E as ([] & w1 & Etrain & E).
      apply bind_ok_inv in E as ([] & w2 & Etest & Esample).
      apply sample_images_ok_iff in Esample
        as (z & dec & img & rng & Hz & Hd & Hv & ->).
      apply IH in Erest. econstructor; eauto.
    + intros R.
      inversion R as [|? ? ? w1 w2 ? z dec img rng Htrain Htest Hz Hd Hv Hrest];
        subst.
      assert (Hs : sample_images g epoch w2
                   = (Ok tt, after_sample g epoch w2 rng img)).
      { apply sample_images_ok_iff. now exists z, dec, img, rng. }
      assert (Hb : epoch_body g epoch w
                   = (Ok tt, after_sample g epoch w2 rng img)).
      { unfold epoch_body.
        erewrite bind_ok_intro by exact Htrain.
        erewrite bind_ok_intro by exact Htest. exact Hs. }
      erewrite bind_ok_intro by exact Hb. now apply IH.
Qed.

(** ** Module initialisation and the loaders *)

Lemma module_init_inv (a : Args) (cifar : Dataset F) (now : struct_time)
    (g : Globals F) (w0 : World F) :
  module_init a cifar now = Ok (g, w0) ->
  (0 < batch_size a)%Z /\
  g = mkGlobals a [cifar] 0
        (mkDataLoader 0 (Z.to_nat (batch_size a)) true)
        (mkDataLoader 0 (Z.to_nat (batch_size a)) true)
        (mk_timestring now) /\
  w_out w0 = [].
Proof.
  unfold module_init, new_DataLoader.
  destruct (batch_size a <=? 0)%Z eqn:Hb; [discriminate|]. cbn [rbind].
  destruct (init_model (manual_seed (seed a))) as [model rng].
  intros [= <- <-]. apply Z.leb_gt in Hb. auto.
Qed.

Lemma batch_sampler_concat (bs : nat) (idxs : list nat) :
  forall batch, concat (batch_sampler bs idxs batch) = batch ++ idxs.
Proof.
  induction idxs as [|i rest IH]; intros batch; simpl.
  - destruct batch; simpl; now rewrite ?app_nil_r.
  - destruct (length (batch ++ [i]) =? bs); simpl; rewrite IH;
      now rewrite <- app_assoc.
Qed.

Lemma loader_batches_cover (dl : DataLoader) (n : nat)
    (w w' : World F) (batches : list (list nat)) :
  (forall m r, Permutation (fst (randperm m r)) (seq 0 m)) ->
  loader_batches dl n w = (Ok batches, w') ->
  Permutation (concat batches) (seq 0 n).
Proof.
  intros Hperm E. unfold loader_batches in E.
  apply bind_ok_inv in E as (idxs & w1 & E1 & E).
  injection E as <- _. rewrite batch_sampler_concat. simpl.
  unfold with_rng in E1.
  destruct (dl_shuffle dl).
  - specialize (Hperm n (w_rng w)).
    destruct (randperm n (w_rng w)) as [p r]. injection E1 as <- _.
    exact Hperm.
  - injection E1 as <- _. apply Permutation_refl.
Qed.

(** ** The option that is not read *)

Lemma bind_ext {S A B} (c : M S A) (k k' : A -> M S B) (s : S) :
  (forall a s1, k a s1 = k' a s1) -> bind c k s = bind c k' s.
Proof. intros E. unfold bind. destruct (c s) as [[a|e] s1]; auto. Qed.

Lemma train_loop_ignores_recon_loss (g : Globals F) (flag : string)
    (epoch : Z) (ds : Dataset F) (batches : list (list nat)) :
  forall k acc w,
    train_loop (with_recon_loss g flag) epoch ds batches k acc w
    = train_loop g epoch ds batches k acc w.
Proof.
  induction batches as [|idxs rest IH]; intros k acc w; simpl;
    [reflexivity|].
  change (train_batch (with_recon_loss g flag) epoch ds k idxs acc)
    with (train_batch g epoch ds k idxs acc).
  apply bind_ext. intros a s1. apply IH.
Qed.

Lemma test_loop_ignores_recon_loss (g : Globals F) (flag : string)
    (epoch : Z) (ds : Dataset F) (batches : list (list nat)) :
  forall i acc w,
    test_loop (with_recon_loss g flag) epoch ds batches i acc w
    = test_loop g epoch ds batches i acc w.
Proof.
  induction batches as [|idxs rest IH]; intros i acc w; simpl;
    [reflexivity|].
  change (test_batch (with_recon_loss g flag) epoch ds i idxs acc)
    with (test_batch g epoch ds i idxs acc).
  apply bind_ext. intros a s1. apply IH.
Qed.

Lemma train_ignores_recon_loss (g : Globals F) (flag : string) (epoch : Z)
    (w : World F) :
  train (with_recon_loss g flag) epoch w = train g epoch w.
Proof.
  unfold train.
  apply bind_ext; intros _ s1.
  apply (bind_ext (lift (loader_dataset g (train_loader g)))); intros ds s2.
  apply (bind_ext (loader_batches (train_loader g) (length ds)));
    intros batches s3.
  unfold bind at 1 3. rewrite train_loop_ignores_recon_loss. reflexivity.
Qed.

Lemma test_ignores_recon_loss (g : Globals F) (flag : string) (epoch : Z)
    (w : World F) :
  test (with_recon_loss g flag) epoch w = test g epoch w.
Proof.
  unfold test.
  apply bind_ext; intros _ s1.
  apply (bind_ext (lift (loader_dataset g (test_loader g)))); intros ds s2.
  apply (bind_ext (loader_batches (test_loader g) (length ds)));
    intros batches s3.
  unfold bind at 1 3. rewrite test_loop_ignores_recon_loss. reflexivity.
Qed.

End ScriptFacts.

(* ===================================================================== *)
(** * Properties of the script                                            *)
(* ===================================================================== *)

Section ScriptProperties.
Context {F : Type} `{Scalar F} `{Imports F}.

(** C1.  The [recon_loss] option is never read.  Whatever value it holds,
    [train] and [test] behave the same; and in both loops every loss that a
    batch contributes is the one [loss_function] returns for "MSE", the
    squared-error term plus the KL term of the model's output on that
    batch. *)
Theorem recon_loss_option_is_dead (g : Globals F) (flag : string)
    (epoch : Z) (w : World F) :
  train (with_recon_loss g flag) epoch w = train g epoch w
  /\ test (with_recon_loss g flag) epoch w = test g epoch w
  /\ (forall ds k idxs acc acc' w',
         train_batch (with_recon_loss g flag) epoch ds k idxs acc w
         = (Ok acc', w') ->
         exists loss, squared_error_loss_of w ds idxs loss /\
                      acc' = fadd acc loss)
  /\ (forall ds i idxs acc acc' w',
         test_batch (with_recon_loss g flag) epoch ds i idxs acc w
         = (Ok acc', w') ->
         exists loss, squared_error_loss_of w ds idxs loss /\
                      acc' = fadd acc loss).
Proof.
  split; [apply train_ignores_recon_loss|].
  split; [apply test_ignores_recon_loss|]. split.
  - intros ds k idxs acc acc' w'. apply train_batch_loss.
  - intros ds i idxs acc acc' w'. apply test_batch_loss.
Qed.

(** C4.  A call of [test] leaves the model's parameters as they were, and
    also their gradients and the optimizer's state, whether it returns or
    raises.  When it returns, it has added one loss per batch of the test
    loader to its accumulator, starting from zero, and the line it prints
    last reports that sum divided by the size of the dataset. *)
Theorem test_leaves_parameters_unchanged (g : Globals F) (epoch : Z)
    (w : World F) :
  w_params (snd (test g epoch w)) = w_params w
  /\ w_grads (snd (test g epoch w)) = w_grads w
  /\ w_opt (snd (test g epoch w)) = w_opt w
  /\ (forall w', test g epoch w = (Ok tt, w') ->
        exists ds batches w1 w2 losses avg out,
          loader_dataset g (test_loader g) = Ok ds /\
          loader_batches (test_loader g) (length ds) w1 = (Ok batches, w2) /\
          length losses = length batches /\
          py_div (fold_left fadd losses fzero) (length ds) = Ok avg /\
          w_out w' = out ++ [PrintTestLoss avg]).
Proof.
  destruct (frame_test g epoch w) as (Hp & Hg & Ho).
  repeat split; try assumption.
  intros w' E. unfold test in E.
  apply bind_ok_inv in E as ([] & w1 & _ & E).
  apply bind_ok_inv in E as (ds & w2 & E2 & E).
  apply lift_ok_inv in E2 as (Hds & ->).
  apply bind_ok_inv in E as (batches & w3 & Hb & E).
  apply bind_ok_inv in E as (total & w4 & Hloop & E).
  apply bind_ok_inv in E as (avg & w5 & E5 & E).
  apply lift_ok_inv in E5 as (Havg & ->).
  apply test_loop_accumulates in Hloop as (losses & Hlen & ->).
  unfold emit in E. injection E as <-.
  exists ds, batches, w1, w3, losses, avg, (w_out w4). auto.
Qed.

(** C8.  Every run of the script goes through the epochs 1, 2, ...,
    [epochs] in this order, and in each of them: [train] runs, then [test]
    runs, then 64 latent vectors of dimension 128 are drawn with [randn] (the
    encoder is not called), decoded and saved as a 64x3x32x32 image under the
    name [results_c/sample_<timestring><epoch>.png], where the timestring is
    "_year_month_day_hour_" of the start of the run.  First part: the
    milestones read off the output of any run (training summary of the
    epoch, test summary, sample file of the epoch) are an initial segment of
    that sequence, and the whole of it when the run returns.  Second part: a
    run that returns is exactly such a sequence of calls. *)
Theorem main_runs_train_test_sample_each_epoch (a : Args) (cifar : Dataset F)
    (now : struct_time) (g : Globals F) (w0 : World F) :
  module_init a cifar now = Ok (g, w0) ->
  (exists reached missed,
      flat_map
        (fun epoch =>
           [TrainDone epoch; EvalDone;
            SampleSaved ("results_c/sample_" ++ mk_timestring now
                         ++ str epoch ++ ".png")])
        (map Z.of_nat (seq 1 (Z.to_nat (epochs a))))
      = reached ++ missed /\
      stages (w_out (snd (main g w0))) = reached /\
      (fst (main g w0) = Ok tt -> missed = []))
  /\ (forall w', main g w0 = (Ok tt, w') <->
                 epochs_run g (map Z.of_nat (seq 1 (Z.to_nat (epochs a))))
                   w0 w').
Proof.
  intros Hinit.
  apply module_init_inv in Hinit as (_ & Hg & Hout).
  assert (Ha : args g = a) by now subst g.
  assert (Ht : timestring g = mk_timestring now) by now subst g.
  unfold main. rewrite Ha, range_from_one. split.
  - destruct (passes_for_each g (map Z.of_nat (seq 1 (Z.to_nat (epochs a))))
                w0) as (reached & missed & Hst & Hreached & Hok).
    exists reached, missed. rewrite Hout in Hreached. simpl in Hreached.
    split; [|split; [exact Hreached | apply Hok]].
    rewrite <- Hst. apply flat_map_ext. intros epoch.
    unfold epoch_stages, sample_file. now rewrite Ht.
  - intros w'. apply for_each_epochs_run.
Qed.

(** C3.  The script creates one dataset object, and the training loader and
    the test loader are both built on its address: they resolve to the same
    dataset.  So [train] and [test] loop over the same examples: both run
    their loop on that dataset, and each pass of either loader visits every
    index of it exactly once, in batches (the library's [randperm] is
    assumed to return a permutation). *)
Theorem loaders_share_the_dataset (a : Args) (cifar : Dataset F)
    (now : struct_time) (g : Globals F) (w0 : World F) :
  (forall m r, Permutation (fst (randperm m r)) (seq 0 m)) ->
  module_init a cifar now = Ok (g, w0) ->
  dl_dataset (train_loader g) = dl_dataset (test_loader g)
  /\ length (heap g) = 1
  /\ loader_dataset g (train_loader g) = Ok cifar
  /\ loader_dataset g (test_loader g) = Ok cifar
  /\ (forall epoch w,
         train g epoch w
         = (set_training true ;;
            batches <- loader_batches (train_loader g) (length cifar) ;;
            train_loss <- train_loop g epoch cifar batches 0 fzero ;;
            avg <- lift (py_div train_loss (length cifar)) ;;
            emit (PrintTrainEpoch epoch avg))%stmt w)
  /\ (forall epoch w,
         test g epoch w
         = (set_training false ;;
            batches <- loader_batches (test_loader g) (length cifar) ;;
            test_loss <- test_loop g epoch cifar batches 0 fzero ;;
            avg <- lift (py_div test_loss (length cifar)) ;;
            emit (PrintTestLoss avg))%stmt w)
  /\ (forall w w1 trained,
         loader_batches (train_loader g) (length cifar) w = (Ok trained, w1) ->
         Permutation (concat trained) (seq 0 (length cifar)))
  /\ (forall w w1 tested,
         loader_batches (test_loader g) (length cifar) w = (Ok tested, w1) ->
         Permutation (concat tested) (seq 0 (length cifar))).
Proof.
  intros Hperm Hinit.
  apply module_init_inv in Hinit as (_ & -> & _).
  do 4 (split; [reflexivity|]).
  split; [reflexivity|]. split; [reflexivity|]. split.
  - intros w w1 trained E. eapply loader_batches_cover; eauto.
  - intros w w1 tested E. eapply loader_batches_cover; eauto.
Qed.

End ScriptProperties.

(* ===================================================================== *)
(** * The script on the small environment                                 *)
(* ===================================================================== *)

Lemma fixture_module_init :
  module_init Fixture.arguments Fixture.dataset Fixture.now
  = Ok (Fixture.globals, Fixture.world0).
Proof. reflexivity. Qed.

Lemma fixture_randperm (m : nat) (r : nat) :
  Permutation (fst (randperm m r)) (seq 0 m).
Proof. simpl. apply Permutation_sym, Permutation_rev. Qed.

Lemma fixture_main_returns :
  main Fixture.globals Fixture.world0 = (Ok tt, Fixture.world_end).
Proof.
  unfold Fixture.world_end.
  assert (E : fst (main Fixture.globals Fixture.world0) = Ok tt)
    by (vm_compute; reflexivity).
  destruct (main Fixture.globals Fixture.world0) as [r w]. simpl in E.
  now subst r.
Qed.

(** C3 on the small environment. *)
Lemma loaders_share_the_dataset_witness :
  (forall m r, Permutation (fst (randperm m r)) (seq 0 m)) /\
  module_init Fixture.arguments Fixture.dataset Fixture.now
  = Ok (Fixture.globals, Fixture.world0) /\
  dl_dataset (train_loader Fixture.globals)
  = dl_dataset (test_loader Fixture.globals).
Proof.
  split; [exact fixture_randperm|]. split; [exact fixture_module_init|].
  exact (proj1 (loaders_share_the_dataset Fixture.arguments Fixture.dataset
                  Fixture.now fixture_randperm fixture_module_init)).
Defined.

(** C8 on the small environment: one epoch. *)
Lemma main_runs_train_test_sample_each_epoch_witness :
  module_init Fixture.arguments Fixture.dataset Fixture.now
  = Ok (Fixture.globals, Fixture.world0) /\
  epochs_run Fixture.globals [1%Z] Fixture.world0 Fixture.world_end.
Proof.
  split; [exact fixture_module_init|].
  exact (proj1 (proj2 (main_runs_train_test_sample_each_epoch
                         Fixture.arguments Fixture.dataset Fixture.now
                         fixture_module_init) Fixture.world_end)
           fixture_main_returns).
Defined.

(* ===================================================================== *)
(** * When the loss function returns                                      *)
(* ===================================================================== *)

Section LossDefined.
Context {F : Type} `{Scalar F}.

Lemma broadcast_rev_absorbs (a b r : list nat) :
  broadcast_rev a b = Some r -> broadcast_rev r a = Some r.
Proof.
  revert b r; induction a as [|x a IH]; intros b r E.
  - simpl in E. injection E as <-. now destruct b.
  - destruct b as [|y b].
    + simpl in E. injection E as <-. apply broadcast_rev_same.
    + simpl in E. destruct (broadcast_rev a b) as [r'|] eqn:Er; [|discriminate].
      apply IH in Er.
      destruct (x =? y) eqn:Exy.
      * injection E as <-. simpl. now rewrite Er, Nat.eqb_refl.
      * destruct (x =? 1) eqn:Ex1.
        -- injection E as <-. simpl. rewrite Er.
           apply Nat.eqb_eq in Ex1. subst x.
           rewrite Nat.eqb_sym in Exy. rewrite Exy. reflexivity.
        -- destruct (y =? 1); [|discriminate].
           injection E as <-. simpl. now rewrite Er, Nat.eqb_refl.
Qed.

Lemma broadcast_shapes_absorbs (a b s : list nat) :
  broadcast_shapes a b = Some s -> broadcast_shapes s a = Some s.
Proof.
  unfold broadcast_shapes.
  destruct (broadcast_rev (rev a) (rev b)) as [r|] eqn:Er; [|discriminate].
  simpl. intros [= <-]. rewrite rev_involutive.
  now rewrite (broadcast_rev_absorbs _ _ Er).
Qed.

Lemma view_rows_iff (x xv : Tensor F) :
  view x [-1; 3072]%Z = Ok xv <->
  numel x mod 3072 = 0 /\ xv = mkTensor [numel x / 3072; 3072] (data x).
Proof.
  unfold view.
  change (known_dims [-1; 3072]%Z) with [3072%Z].
  change (existsb (fun d => (d <? 0)%Z) [3072%Z]) with false.
  change (length [-1; 3072]%Z - length [3072%Z]) with 1.
  change (numel_of (map Z.to_nat [3072%Z])) with 3072.
  cbv iota beta. change (3072 =? 0) with false. rewrite orb_false_l.
  destruct (numel x mod 3072 =? 0) eqn:Em; cbn [negb].
  - apply Nat.eqb_eq in Em. split.
    + intros [= <-]. split; [exact Em | reflexivity].
    + intros (_ & ->). reflexivity.
  - apply Nat.eqb_neq in Em. split; [discriminate | intros (Hm & _); contradiction].
Qed.

Lemma binop_equal_shapes_returns (f : F -> F -> F) (a b : Tensor F) :
  shape a = shape b -> exists d, binop f a b = Ok d.
Proof.
  intros Hs. unfold binop. rewrite Hs, broadcast_shapes_same. eauto.
Qed.

Lemma KLD_term_returns_iff (mu logvar : Tensor F) :
  (exists k, KLD_term mu logvar = Ok k) <->
  broadcast_shapes (shape logvar) (shape mu) <> None.
Proof.
  unfold KLD_term, binop. cbn [shape tmap].
  destruct (broadcast_shapes (shape logvar) (shape mu)) as [s|] eqn:Es;
    cbn [rbind shape].
  - rewrite (broadcast_shapes_absorbs _ _ Es). cbn [rbind].
    split; [discriminate | eauto].
  - split; [intros (k & [=]) | congruence].
Qed.

Lemma BCE_term_returns_iff (recon_x x : Tensor F) :
  (exists b, BCE_term recon_x x = Ok b) <->
  numel x mod 3072 = 0 /\ shape recon_x = [numel x / 3072; 3072] /\
  forallb in_unit (data recon_x) = true.
Proof.
  unfold BCE_term. split.
  - intros (b & E). apply rbind_ok_inv in E as (xv & Hv & E).
    apply view_rows_iff in Hv as (Hm & ->).
    apply binary_cross_entropy_ok in E as (Hs & Hr & _).
    cbn [shape] in Hs. auto.
  - intros (Hm & Hs & Hr).
    assert (Hv : view x [-1; 3072]%Z
                 = Ok (mkTensor [numel x / 3072; 3072] (data x)))
      by (apply view_rows_iff; split; [exact Hm | reflexivity]).
    rewrite Hv. cbn [rbind]. unfold binary_cross_entropy. cbn [shape].
    rewrite <- Hs, shape_eqb_refl, Hr. eauto.
Qed.

(** When the cross-entropy term is defined, so is the squared-error term. *)
Lemma BCE_term_returns_MSE_term (recon_x x : Tensor F) (b : F) :
  BCE_term recon_x x = Ok b -> exists m, MSE_term recon_x x = Ok m.
Proof.
  intros E. unfold BCE_term in E. apply rbind_ok_inv in E as (xv & Hv & E).
  apply binary_cross_entropy_ok in E as (Hs & _ & _).
  unfold MSE_term. rewrite Hv. cbn [rbind]. unfold mse_loss.
  destruct (binop_equal_shapes_returns sq_diff recon_x xv (eq_sym Hs)) as (d & ->).
  cbn [rbind]. eauto.
Qed.

(** X1.  Whatever the selector, [loss_function] returns only if the image
    batch has a multiple of 3072 elements, the reconstruction has size
    [(numel / 3072) x 3072], every element of the reconstruction lies in the
    unit interval, and the sizes of the log-variance and of the mean
    broadcast (first part).  Under these conditions it does return when
    the elements of the image batch lie in the unit interval as well
    (second part). *)
Theorem loss_function_returns_conditions (recon_x x mu logvar : Tensor F)
    (recon_type : string) :
  ((exists v, loss_function recon_x x mu logvar recon_type = Ok v) ->
   numel x mod 3072 = 0 /\
   shape recon_x = [numel x / 3072; 3072] /\
   forallb in_unit (data recon_x) = true /\
   broadcast_shapes (shape logvar) (shape mu) <> None)
  /\
  (numel x mod 3072 = 0 ->
   shape recon_x = [numel x / 3072; 3072] ->
   forallb in_unit (data recon_x) = true ->
   forallb in_unit (data x) = true ->
   broadcast_shapes (shape logvar) (shape mu) <> None ->
   exists v, loss_function recon_x x mu logvar recon_type = Ok v).
Proof.
  split.
  - intros (v & E). unfold loss_function in E.
    apply rbind_ok_inv in E as (b & Hb & E).
    apply rbind_ok_inv in E as (m & _ & E).
    apply rbind_ok_inv in E as (k & Hk & _).
    assert (Hb' : exists b, BCE_term recon_x x = Ok b) by eauto.
    assert (Hk' : exists k, KLD_term mu logvar = Ok k) by eauto.
    apply BCE_term_returns_iff in Hb' as (Hm & Hs & Hr).
    apply KLD_term_returns_iff in Hk'. auto.
  - intros Hm Hs Hr _ Hbc.
    destruct (proj2 (BCE_term_returns_iff recon_x x)) as (b & Hb); [auto|].
    destruct (BCE_term_returns_MSE_term _ _ Hb) as (m & Hmse).
    destruct (proj2 (KLD_term_returns_iff mu logvar) Hbc) as (k & Hk).
    unfold loss_function. rewrite Hb, Hmse, Hk. cbn [rbind].
    destruct (String.eqb recon_type "BCE"); eauto.
Qed.

(** X2.  With the selector "BCE" the call returns the cross-entropy term
    plus the KL term; the squared-error term, which is computed in between
    and not used, never makes the call raise. *)
Theorem loss_function_BCE (recon_x x mu logvar : Tensor F) :
  loss_function recon_x x mu logvar "BCE"
  = (let? BCE := BCE_term recon_x x in
     let? KLD := KLD_term mu logvar in
     Ok (fadd BCE KLD))%result
  /\ (forall b, BCE_term recon_x x = Ok b ->
                exists m, MSE_term recon_x x = Ok m).
Proof.
  split; [|intros b; apply BCE_term_returns_MSE_term].
  unfold loss_function.
  destruct (BCE_term recon_x x) as [b|e] eqn:Hb; [|reflexivity].
  destruct (BCE_term_returns_MSE_term _ _ Hb) as (m & ->). reflexivity.
Qed.

End LossDefined.

(* ===================================================================== *)
(** * The squared error of a perfect reconstruction                       *)
(* ===================================================================== *)

Section PerfectReconstruction.
Import Ideal Binary32.

Lemma sq_diff_same_R (l : list R) :
  Forall (fun v => v = 0%R) (map2 sq_diff l l).
Proof.
  induction l as [|a l IH]; cbn [map2]; constructor; [|exact IH].
  unfold sq_diff; simpl. ring.
Qed.

Lemma Rsum_zeros (l : list R) :
  Forall (fun v => v = 0%R) l -> fold_left Rplus l 0%R = 0%R.
Proof.
  induction 1 as [|a l -> _ IH]; [reflexivity|].
  simpl. now rewrite Rplus_0_l.
Qed.

(** A number that is not an infinity or a NaN, minus itself, is [+0]. *)
Lemma SFsub_diag (a : float32) :
  finite32 a = true -> SFsub prec emax a a = pzero.
Proof.
  destruct a as [s| s | | s m e]; try discriminate; intros _.
  - now destruct s.
  - unfold SFsub. now rewrite Z.sub_diag.
Qed.

Lemma sq_diff_same_f32 (expf logf : float32 -> float32) (l : list float32) :
  Forall (fun v => finite32 v = true) l ->
  Forall (fun v => v = pzero)
    (map2 (@sq_diff _ (f32_scalar expf logf)) l l).
Proof.
  induction 1 as [|a l Ha _ IH]; cbn [map2]; constructor; [|exact IH].
  unfold sq_diff. cbn [fsub fmul f32_scalar]. now rewrite SFsub_diag.
Qed.

(** Adding up [+0]s gives [+0], in any order. *)
Lemma summed_pzeros (l : list float32) (s : float32) :
  summed (SFadd prec emax) pzero l s ->
  Forall (fun v => v = pzero) l -> s = pzero.
Proof.
  induction 1 as [| x | l1 l2 a b _ IH1 _ IH2 | l l' a Hp _ IH]; intros Hz.
  - reflexivity.
  - now inversion Hz.
  - apply Forall_app in Hz as (Hz1 & Hz2).
    now rewrite (IH1 Hz1), (IH2 Hz2).
  - apply IH. exact (Permutation_Forall (Permutation_sym Hp) Hz).
Qed.

(** X4.  When the reconstruction of [n] images holds the same numbers as
    the images, in the same order, the squared-error term is zero: [0] in
    exact arithmetic (first part), and [+0] in single precision if no number
    is an infinity or a NaN (second part).  All the terms of the sum are
    then [+0], and adding them up gives [+0] in whichever order it is
    done. *)
Theorem MSE_term_of_perfect_reconstruction :
  (forall (recon_x x : Tensor R) (n : nat),
      shape recon_x = [n; 3072] -> numel x = n * 3072 ->
      wf recon_x -> wf x ->
      data recon_x = data x ->
      MSE_term recon_x x = Ok 0%R)
  /\
  (forall (expf logf : float32 -> float32) (recon_x x : Tensor float32)
          (n : nat),
      shape recon_x = [n; 3072] -> numel x = n * 3072 ->
      wf recon_x -> wf x ->
      data recon_x = data x ->
      Forall (fun v => finite32 v = true) (data x) ->
      @MSE_term _ (f32_scalar expf logf) recon_x x = Ok pzero
      /\ forall s,
           summed (SFadd prec emax) pzero
             (map2 (@sq_diff _ (f32_scalar expf logf)) (data recon_x)
                (data x)) s ->
           s = pzero).
Proof.
  split.
  - intros recon_x x n Hs Hn Wr Wx Hd.
    unfold MSE_term. rewrite (@view_rows_ok _ x n Hn). cbn [rbind].
    rewrite mse_loss_same_shape; [ | exact Hs | exact Wr | ].
    2:{ unfold wf, numel in *; cbn [shape data]. now rewrite Wx, numel_matrix. }
    cbn [data fadd fzero R_scalar]. rewrite Hd.
    now rewrite (Rsum_zeros (sq_diff_same_R (data x))).
  - intros expf logf recon_x x n Hs Hn Wr Wx Hd Hfin.
    split.
    2:{ intros s Hsum. apply (summed_pzeros Hsum). rewrite Hd.
        now apply sq_diff_same_f32. }
    unfold MSE_term.
    rewrite (@view_rows_ok _ x n Hn). cbn [rbind].
    rewrite (@mse_loss_same_shape _ (f32_scalar expf logf));
      [ | exact Hs | exact Wr | ].
    2:{ unfold wf, numel in *; cbn [shape data]. now rewrite Wx, numel_matrix. }
    cbn [data fadd fzero f32_scalar]. rewrite Hd.
    f_equal. apply (summed_pzeros (fold_left_summed _ _ _)).
    now apply sq_diff_same_f32.
Qed.

End PerfectReconstruction.

(* ===================================================================== *)
(** * Facts about one pass of the training loop                         *)
(* ===================================================================== *)

Section StatementFacts.
Context {F : Type} `{Scalar F} `{Imports F}.

Lemma py_mod_ok_inv (a b k : Z) :
  py_mod a b = Ok k -> b <> 0%Z /\ k = (a mod b)%Z.
Proof.
  unfold py_mod. destruct (b =? 0)%Z eqn:Eb; [discriminate|].
  apply Z.eqb_neq in Eb. now intros [= <-].
Qed.

Lemma py_div_ok_inv (x y : F) (n : nat) :
  py_div x n = Ok y -> n <> 0 /\ y = fdiv x (of_nat n).
Proof. destruct n; [discriminate|]. now intros [= <-]. Qed.

Lemma stack_shape (ts : list (Tensor F)) (t : Tensor F) :
  stack ts = Ok t ->
  exists t0 rest, ts = t0 :: rest /\ shape t = length ts :: shape t0.
Proof.
  unfold stack. destruct ts as [|t0 rest]; [discriminate|].
  destruct (forallb _ _); [|discriminate].
  intros [= <-]. now exists t0, rest.
Qed.

Lemma fetch_images_length (ds : Dataset F) (idxs : list nat) :
  forall imgs, fetch_images ds idxs = Ok imgs -> length imgs = length idxs.
Proof.
  induction idxs as [|i rest IH]; intros imgs; simpl.
  - now intros [= <-].
  - destruct (nth_error ds i) as [[img lbl]|]; [|discriminate].
    destruct (fetch_images ds rest) as [imgs'|e]; [|discriminate].
    cbn [rbind]. intros [= <-]. simpl. now rewrite (IH imgs').
Qed.

(** A fetched batch has one row for each index, and at least one. *)
Lemma fetch_size0 (ds : Dataset F) (idxs : list nat) (x : Tensor F) :
  fetch ds idxs = Ok x -> size0 x = length idxs /\ idxs <> [].
Proof.
  unfold fetch. destruct (fetch_images ds idxs) as [imgs|e] eqn:Ef;
    [|discriminate].
  cbn [rbind]. intros Hs.
  apply stack_shape in Hs as (t0 & rest & -> & Hs).
  apply fetch_images_length in Ef. unfold size0. rewrite Hs. simpl in *.
  split; [exact Ef|]. intros ->. discriminate.
Qed.

(** What a pass of the loop body of [train] that returns has done. *)
Lemma train_batch_ok_inv (g : Globals F) (epoch : Z) (ds : Dataset F)
    (k : nat) (idxs : list nat) (acc acc' : F) (w w' : World F) :
  train_batch g epoch ds k idxs acc w = (Ok acc', w') ->
  exists x out rng gr lines,
    fetch ds idxs = Ok x /\
    forward (w_params w) (w_training w) x (w_rng w) = (Ok out, rng) /\
    gr = backward "MSE" (w_params w) (w_training w) x (w_rng w) no_grads /\
    w' = mkWorld (fst (adam_step (w_params w) gr (w_opt w))) (w_training w)
           gr (snd (adam_step (w_params w) gr (w_opt w))) rng
           (w_out w ++ lines) /\
    log_interval (args g) <> 0%Z /\
    ((Z.of_nat k mod log_interval (args g) <> 0)%Z /\ lines = [] \/
     (Z.of_nat k mod log_interval (args g) = 0)%Z /\
     exists pct per,
       lines = [PrintTrainBatch epoch (k * length idxs) (length ds) pct per]).
Proof.
  unfold train_batch. intros E.
  apply bind_ok_inv in E as (x & w1 & E1 & E).
  apply lift_ok_inv in E1 as (Hf & ->).
  apply bind_ok_inv in E as ([] & w2 & E2 & E).
  injection E2 as <-.
  apply bind_ok_inv in E as (r0 & w3 & E3 & E).
  injection E3 as <- <-.
  apply bind_ok_inv in E as ([[recon mu] logvar] & w4 & E4 & E).
  apply bind_ok_inv in E as (loss & w5 & E5 & E).
  apply lift_ok_inv in E5 as (Hl & ->).
  apply bind_ok_inv in E as ([] & w6 & E6 & E).
  apply bind_ok_inv in E as ([] & w7 & E7 & E).
  apply bind_ok_inv in E as (m & w8 & E8 & E).
  apply lift_ok_inv in E8 as (Hm & ->).
  apply py_mod_ok_inv in Hm as (Hli & ->).
  apply bind_ok_inv in E as ([] & w9 & E9 & E).
  injection E as _ <-.
  unfold model_call in E4; cbn [w_params w_training w_rng w_grads w_opt w_out]
    in E4.
  destruct (forward (w_params w) (w_training w) x (w_rng w)) as [r rng]
    eqn:Hfw.
  injection E4 as -> <-.
  unfold loss_backward in E6;
    cbn [w_params w_training w_rng w_grads w_opt w_out] in E6.
  injection E6 as <-.
  unfold optimizer_step in E7;
    cbn [w_params w_training w_rng w_grads w_opt w_out] in E7.
  set (gr := backward "MSE" (w_params w) (w_training w) x (w_rng w) no_grads)
    in *.
  destruct (adam_step (w_params w) gr (w_opt w)) as [p o] eqn:Est.
  injection E7 as <-.
  destruct (fetch_size0 _ _ Hf) as (Hsz & _).
  destruct (Z.of_nat k mod log_interval (args g) =? 0)%Z eqn:Ek.
  - apply Z.eqb_eq in Ek.
    apply bind_ok_inv in E9 as (pct & w10 & E10 & E9).
    apply lift_ok_inv in E10 as (_ & ->).
    apply bind_ok_inv in E9 as (per & w11 & E11 & E9).
    apply lift_ok_inv in E11 as (_ & ->).
    unfold emit in E9; cbn [w_params w_training w_rng w_grads w_opt w_out]
      in E9.
    injection E9 as <-.
    eexists x, _, rng, gr, _.
    repeat (split; [first [reflexivity | eassumption | now rewrite Est]|]).
    right. split; [exact Ek|]. exists pct, per. now rewrite Hsz.
  - apply Z.eqb_neq in Ek. injection E9 as <-.
    eexists x, _, rng, gr, []. rewrite app_nil_r.
    repeat (split; [first [reflexivity | eassumption | now rewrite Est]|]).
    left. now split.
Qed.

Lemma last_cons_any {A} (l : list A) :
  forall a d d', last (a :: l) d = last (a :: l) d'.
Proof.
  induction l as [|b l IH]; intros a d d'; [reflexivity|].
  change (last (b :: l) d = last (b :: l) d'). apply IH.
Qed.

Lemma loader_batches_inv (dl : DataLoader) (n : nat) (w w' : World F)
    (batches : list (list nat)) :
  loader_batches dl n w = (Ok batches, w') ->
  same_model w w' /\ w_training w' = w_training w /\ w_out w' = w_out w /\
  exists idxs, batches = batch_sampler (dl_batch_size dl) idxs [] /\
    idxs = fst (if dl_shuffle dl then randperm n (w_rng w)
                else (seq 0 n, w_rng w)).
Proof.
  unfold loader_batches. intros E.
  apply bind_ok_inv in E as (idxs & w1 & E1 & E).
  injection E as <- <-. unfold with_rng in E1.
  destruct (if dl_shuffle dl then randperm n (w_rng w) else (seq 0 n, w_rng w))
    as [p r].
  injection E1 as <- <-. cbn.
  repeat split. now exists p.
Qed.

Lemma loader_batches_rng (dl : DataLoader) (n : nat) (w1 w : World F) :
  w_rng w1 = w_rng w ->
  fst (loader_batches dl n w1) = fst (loader_batches dl n w).
Proof.
  intros Hr. unfold loader_batches, bind, with_rng. rewrite Hr.
  now destruct (if dl_shuffle dl then _ else _).
Qed.

(** The batches of a pass and the generator state it leaves depend on the
    generator state only. *)
Lemma loader_batches_mode (dl : DataLoader) (n : nat) (w1 w w2 : World F)
    (batches : list (list nat)) :
  w_rng w1 = w_rng w ->
  loader_batches dl n w1 = (Ok batches, w2) ->
  exists wl, loader_batches dl n w = (Ok batches, wl) /\ w_rng wl = w_rng w2.
Proof.
  intros Hr. unfold loader_batches, bind, with_rng, ret. rewrite Hr.
  destruct (if dl_shuffle dl then _ else _) as [p r].
  intros [= <- <-]. eexists. split; reflexivity.
Qed.

Lemma batch_sampler_nil (bs : nat) (idxs : list nat) :
  forall cur, batch_sampler bs idxs cur = [] -> idxs = [] /\ cur = [].
Proof.
  induction idxs as [|i rest IH]; intros cur; simpl.
  - destruct cur; [auto | discriminate].
  - destruct (_ =? _); [discriminate|].
    intros E. apply IH in E as (_ & E). now destruct cur.
Qed.

(** With a sampler that returns permutations, a pass over a non-empty
    dataset has a first batch. *)
Lemma loader_batches_nonempty (dl : DataLoader) (n : nat) (w : World F) :
  (forall m r, Permutation (fst (randperm m r)) (seq 0 m)) ->
  fst (loader_batches dl n w) = Ok [] -> n = 0.
Proof.
  intros Hperm E.
  destruct (loader_batches dl n w) as [r w'] eqn:El. simpl in E. subst r.
  pose proof (loader_batches_cover _ _ _ Hperm El) as Hc.
  apply Permutation_length in Hc. now rewrite length_seq in Hc.
Qed.

Lemma steps_run_length (ds : Dataset F) (batches : list (list nat))
    (p p' : Params) (o o' : OptState) (r r' : Rng) (gs : list Grads) :
  steps_run ds batches p o r gs p' o' r' -> length gs = length batches.
Proof. induction 1; simpl; congruence. Qed.

(** What a pass over the batches that returns has done: one step for each
    batch, and the progress lines of the logged batches. *)
Lemma train_loop_ok_inv (g : Globals F) (epoch : Z) (ds : Dataset F)
    (batches : list (list nat)) :
  forall k acc acc' w w',
    w_training w = true ->
    train_loop g epoch ds batches k acc w = (Ok acc', w') ->
    exists gs lines,
      steps_run ds batches (w_params w) (w_opt w) (w_rng w) gs
        (w_params w') (w_opt w') (w_rng w') /\
      w_grads w' = last gs (w_grads w) /\
      w_training w' = true /\
      w_out w' = w_out w ++ lines /\
      Forall2 (progress_line epoch (length ds))
        (logged_from (log_interval (args g)) k batches) lines /\
      (batches <> [] -> log_interval (args g) <> 0%Z).
Proof.
  induction batches as [|idxs rest IH]; intros k acc acc' w w' Hm E;
    simpl in E.
  - injection E as _ <-. exists [], []. rewrite app_nil_r.
    repeat split; auto; try constructor; congruence.
  - apply bind_ok_inv in E as (acc1 & w1 & E1 & E).
    apply train_batch_ok_inv in E1
      as (x & out & rng & gr & l1 & Hf & Hfw & Hgr & -> & Hli & Hlog).
    apply IH in E
      as (gs & lines & Hsteps & Hg & Hm' & Hout & Hl & _);
      [|exact Hm].
    cbn [w_params w_training w_rng w_grads w_opt w_out] in *.
    rewrite Hm in Hfw, Hgr.
    exists (gr :: gs), (l1 ++ lines).
    split; [eapply steps_batch; eassumption|].
    split.
    { rewrite Hg. destruct gs as [|g0 gs']; [reflexivity|].
      change (last (gr :: g0 :: gs') (w_grads w))
        with (last (g0 :: gs') (w_grads w)).
      apply last_cons_any. }
    split; [exact Hm'|].
    split; [rewrite Hout; now rewrite app_assoc|].
    split; [|intros _; exact Hli].
    unfold logged_from in *. cbn [length seq combine filter fst].
    destruct Hlog as [(Hk & ->) | (Hk & pct & per & ->)].
    + apply Z.eqb_neq in Hk. rewrite Hk. exact Hl.
    + rewrite Hk. cbn [Z.eqb]. simpl app. constructor; [|exact Hl].
      now exists pct, per.
Qed.

Lemma train_ok_inv (g : Globals F) (epoch : Z) (w w' : World F) :
  train g epoch w = (Ok tt, w') ->
  exists ds batches wl gs lines avg,
    loader_dataset g (train_loader g) = Ok ds /\ ds <> [] /\
    loader_batches (train_loader g) (length ds) w = (Ok batches, wl) /\
    (batches <> [] -> log_interval (args g) <> 0%Z) /\
    steps_run ds batches (w_params w) (w_opt w) (w_rng wl) gs
      (w_params w') (w_opt w') (w_rng w') /\
    w_grads w' = last gs (w_grads w) /\
    w_out w' = w_out w ++ lines ++ [PrintTrainEpoch epoch avg] /\
    Forall2 (progress_line epoch (length ds))
      (logged_batches (log_interval (args g)) batches) lines.
Proof.
  unfold train. intros E.
  apply bind_ok_inv in E as ([] & w1 & E1 & E).
  injection E1 as <-.
  apply bind_ok_inv in E as (ds & w2 & E2 & E).
  apply lift_ok_inv in E2 as (Hds & ->).
  apply bind_ok_inv in E as (batches & w3 & E3 & E).
  apply bind_ok_inv in E as (loss & w4 & E4 & E).
  apply bind_ok_inv in E as (avg & w5 & E5 & E).
  apply lift_ok_inv in E5 as (Hdiv & ->).
  apply py_div_ok_inv in Hdiv as (Hdiv & _).
  unfold emit in E. injection E as <-.
  destruct (loader_batches_inv _ _ _ E3) as ((Hp & Hg & Ho) & Hm & Hout & _).
  match type of E3 with
  | loader_batches _ _ ?w1 = _ =>
      destruct (@loader_batches_mode (train_loader g) (length ds) w1 w w3
                  batches eq_refl E3) as (wl & El & Hrl)
  end.
  cbn [w_params w_training w_rng w_grads w_opt w_out] in *.
  apply train_loop_ok_inv in E4
    as (gs & lines & Hsteps & Hgr & Hm' & Hout' & Hl & Hli);
    [|exact Hm].
  exists ds, batches, wl, gs, lines, avg.
  split; [exact Hds|]. split; [now destruct ds|].
  split; [exact El|].
  split; [exact Hli|].
  cbn [w_params w_training w_rng w_grads w_opt w_out].
  split; [now rewrite <- Hp, <- Ho, Hrl|].
  split; [now rewrite Hgr, Hg|].
  split; [now rewrite Hout', Hout, app_assoc|exact Hl].
Qed.

End StatementFacts.

(* ===================================================================== *)
(** * Facts about one pass of the evaluation loop                       *)
(* ===================================================================== *)

Section EvaluationFacts.
Context {F : Type} `{Scalar F} `{Imports F}.

Lemma view_image_batch_inv (t t' : Tensor F) (b : Z) :
  view t [b; 3; 32; 32]%Z = Ok t' ->
  exists d, shape t' = [d; 3; 32; 32] /\ numel t = d * 3072 /\
            (b = -1 \/ b = Z.of_nat d)%Z.
Proof.
  unfold view, known_dims. cbn [filter Z.eqb Pos.eqb negb].
  destruct (b =? -1)%Z eqn:Eb; cbn [negb].
  - apply Z.eqb_eq in Eb. subst b.
    change (existsb (fun d => (d <? 0)%Z) [3; 32; 32]%Z) with false.
    change (length [-1; 3; 32; 32]%Z - length [3; 32; 32]%Z) with 1.
    change (numel_of (map Z.to_nat [3; 32; 32]%Z)) with 3072.
    change (3072 =? 0) with false. rewrite orb_false_l.
    destruct (numel t mod 3072 =? 0) eqn:Em; cbn [negb]; [|discriminate].
    intros [= <-]. apply Nat.eqb_eq in Em.
    exists (numel t / 3072). cbn [shape map Z.eqb Pos.eqb].
    change (Z.to_nat 3) with 3. change (Z.to_nat 32) with 32.
    split; [reflexivity|]. split; [|now left].
    pose proof (Nat.div_mod_eq (numel t) 3072). lia.
  - cbn [existsb]. change (existsb (fun d => (d <? 0)%Z) [3; 32; 32]%Z) with false.
    rewrite orb_false_r.
    destruct (b <? 0)%Z eqn:Eneg; [discriminate|]. apply Z.ltb_ge in Eneg.
    change (length [b; 3; 32; 32]%Z - length [b; 3; 32; 32]%Z) with 0.
    change (map Z.to_nat [b; 3; 32; 32]%Z) with [Z.to_nat b; 3; 32; 32].
    rewrite numel_image_batch.
    destruct (Z.to_nat b * 3072 =? numel t) eqn:En; [|discriminate].
    apply Nat.eqb_eq in En. intros [= <-].
    exists (Z.to_nat b). cbn [shape].
    split; [reflexivity|]. split; [now symmetry|]. right. lia.
Qed.

Lemma take0_shape (t t' : Tensor F) (n : nat) :
  take0 t n = Ok t' ->
  exists d rest, shape t = d :: rest /\ shape t' = Nat.min n d :: rest.
Proof.
  unfold take0. destruct (shape t) as [|d rest]; [discriminate|].
  intros [= <-]. now exists d, rest.
Qed.

Lemma cat0_shape (a b c : Tensor F) :
  cat0 a b = Ok c ->
  exists da db rest, shape a = da :: rest /\ shape b = db :: rest /\
                     shape c = da + db :: rest.
Proof.
  unfold cat0. destruct (shape a) as [|da ra]; [discriminate|].
  destruct (shape b) as [|db rb]; [discriminate|].
  destruct (shape_eqb ra rb) eqn:Es; [|discriminate].
  apply shape_eqb_eq in Es. subst rb. intros [= <-]. now exists da, db, ra.
Qed.

(** The images of a fetched batch exist in the dataset and have the size of
    the batch's rows. *)
Lemma fetch_images_inv (ds : Dataset F) (idxs : list nat) :
  forall imgs, fetch_images ds idxs = Ok imgs ->
  Forall2 (fun i img => exists lbl, nth_error ds i = Some (img, lbl))
    idxs imgs.
Proof.
  induction idxs as [|i rest IH]; intros imgs; simpl.
  - intros [= <-]. constructor.
  - destruct (nth_error ds i) as [[img lbl]|] eqn:Ei; [|discriminate].
    destruct (fetch_images ds rest) as [imgs'|e]; [|discriminate].
    cbn [rbind]. intros [= <-]. constructor; [now exists lbl | now apply IH].
Qed.

Lemma Forall2_In_left {A B} (P : A -> B -> Prop) (l : list A) (l' : list B) :
  Forall2 P l l' -> forall a, In a l -> exists b, In b l' /\ P a b.
Proof.
  induction 1 as [|x y l l' Hxy _ IH]; intros a; [intros []|].
  intros [<- | Ha].
  - exists y. split; [now left | exact Hxy].
  - destruct (IH a Ha) as (b & Hb & Hab). exists b. split; [now right | exact Hab].
Qed.

Lemma fetch_ok_inv (ds : Dataset F) (idxs : list nat) (x : Tensor F) :
  fetch ds idxs = Ok x ->
  exists s, shape x = length idxs :: s /\ idxs <> [] /\
    forall i, In i idxs ->
      exists img lbl, nth_error ds i = Some (img, lbl) /\ shape img = s.
Proof.
  unfold fetch. destruct (fetch_images ds idxs) as [imgs|e] eqn:Ef;
    [|discriminate].
  cbn [rbind]. unfold stack. destruct imgs as [|t0 imgs'] eqn:Ei;
    [discriminate|].
  destruct (forallb _ _) eqn:Ea; [|discriminate].
  intros [= <-]. exists (shape t0). cbn [shape].
  pose proof (fetch_images_length _ _ Ef) as Hlen.
  split; [f_equal; exact Hlen|].
  split; [intros ->; discriminate|].
  intros i Hi. apply fetch_images_inv in Ef.
  rewrite forallb_forall in Ea.
  destruct (Forall2_In_left Ef i Hi) as (img & Himg & lbl & Hnth).
  exists img, lbl. split; [exact Hnth|].
  apply shape_eqb_eq. now apply Ea.
Qed.

End EvaluationFacts.

(* ===================================================================== *)
(** * The mode of the model                                             *)
(* ===================================================================== *)

Section ModeFacts.
Context {F : Type} `{Scalar F} `{Imports F}.

Lemma keeps_mode_bind {A B} (c : M (World F) A) (k : A -> M (World F) B) :
  keeps_mode c -> (forall a, keeps_mode (k a)) -> keeps_mode (bind c k).
Proof.
  intros Hc Hk w. unfold bind. specialize (Hc w).
  destruct (c w) as [[a|e] w1]; simpl in *; [|exact Hc].
  now rewrite Hk.
Qed.

Lemma keeps_mode_ret {A} (a : A) : keeps_mode (ret a).
Proof. now intros w. Qed.

Lemma keeps_mode_lift {A} (r : result A) : keeps_mode (lift r).
Proof. now intros w. Qed.

Lemma keeps_mode_with_rng {A} (f : Rng -> A * Rng) : keeps_mode (with_rng f).
Proof. intros w. unfold with_rng. now destruct (f (w_rng w)). Qed.

Lemma keeps_mode_emit (e : Event F) : keeps_mode (emit e).
Proof. now intros w. Qed.

Lemma keeps_mode_model_call (x : Tensor F) : keeps_mode (model_call x).
Proof. intros w. unfold model_call. now destruct (forward _ _ _ _). Qed.

Lemma keeps_mode_model_decode (z : Tensor F) : keeps_mode (model_decode z).
Proof. now intros w. Qed.

Lemma keeps_mode_zero_grad : keeps_mode zero_grad.
Proof. now intros w. Qed.

Lemma keeps_mode_get_rng : keeps_mode get_rng.
Proof. now intros w. Qed.

Lemma keeps_mode_loss_backward (rt : string) (x : Tensor F) (r0 : Rng) :
  keeps_mode (loss_backward rt x r0).
Proof. now intros w. Qed.

Lemma keeps_mode_optimizer_step : keeps_mode optimizer_step.
Proof. intros w. unfold optimizer_step. now destruct (adam_step _ _ _). Qed.

Ltac mode_step :=
  first [ apply keeps_mode_ret | apply keeps_mode_lift
        | apply keeps_mode_with_rng | apply keeps_mode_model_call
        | apply keeps_mode_model_decode | apply keeps_mode_zero_grad
        | apply keeps_mode_get_rng | apply keeps_mode_loss_backward
        | apply keeps_mode_optimizer_step | apply keeps_mode_emit
        | apply keeps_mode_bind; [| intros ?] ].

Lemma keeps_mode_train_batch (g : Globals F) (epoch : Z) (ds : Dataset F)
    (k : nat) (idxs : list nat) (acc : F) :
  keeps_mode (train_batch g epoch ds k idxs acc).
Proof.
  unfold train_batch.
  do 3 (mode_step; [mode_step|]).
  mode_step; [mode_step|].
  match goal with a : (_ * _ * _)%type |- _ => destruct a as [[? ?] ?] end.
  do 4 (mode_step; [mode_step|]).
  mode_step; [|mode_step].
  destruct (_ =? 0)%Z; repeat mode_step.
Qed.

Lemma keeps_mode_train_loop (g : Globals F) (epoch : Z) (ds : Dataset F)
    (batches : list (list nat)) :
  forall k acc, keeps_mode (train_loop g epoch ds batches k acc).
Proof.
  induction batches as [|idxs rest IH]; intros k acc; simpl.
  - apply keeps_mode_ret.
  - apply keeps_mode_bind; [apply keeps_mode_train_batch | intros a; apply IH].
Qed.

Lemma keeps_mode_test_batch (g : Globals F) (epoch : Z) (ds : Dataset F)
    (i : nat) (idxs : list nat) (acc : F) :
  keeps_mode (test_batch g epoch ds i idxs acc).
Proof.
  unfold test_batch.
  mode_step; [mode_step|].
  mode_step; [mode_step|].
  match goal with a : (_ * _ * _)%type |- _ => destruct a as [[? ?] ?] end.
  mode_step; [mode_step|].
  mode_step; [|mode_step].
  destruct (i =? 0); repeat mode_step.
Qed.

Lemma keeps_mode_test_loop (g : Globals F) (epoch : Z) (ds : Dataset F)
    (batches : list (list nat)) :
  forall i acc, keeps_mode (test_loop g epoch ds batches i acc).
Proof.
  induction batches as [|idxs rest IH]; intros i acc; simpl.
  - apply keeps_mode_ret.
  - apply keeps_mode_bind; [apply keeps_mode_test_batch | intros a; apply IH].
Qed.

Lemma keeps_mode_sample_images (g : Globals F) (epoch : Z) :
  keeps_mode (sample_images g epoch).
Proof. unfold sample_images. repeat mode_step. Qed.

(** After [model.train()] or [model.eval()] the rest of the function keeps
    the mode that was set. *)
Lemma mode_after_set {A} (b : bool) (k : M (World F) A) (w : World F) :
  keeps_mode k -> w_training (snd (bind (set_training b) (fun _ => k) w)) = b.
Proof. intros Hk. unfold bind, set_training. now rewrite Hk. Qed.

Lemma train_mode (g : Globals F) (epoch : Z) (w : World F) :
  w_training (snd (train g epoch w)) = true.
Proof.
  unfold train. apply mode_after_set. unfold loader_batches.
  repeat first [ apply keeps_mode_train_loop | mode_step ].
Qed.

Lemma test_mode (g : Globals F) (epoch : Z) (w : World F) :
  w_training (snd (test g epoch w)) = false.
Proof.
  unfold test. apply mode_after_set. unfold loader_batches.
  repeat first [ apply keeps_mode_test_loop | mode_step ].
Qed.

End ModeFacts.

Section EvaluationRuns.
Context {F : Type} `{Scalar F} `{Imports F}.

Lemma model_call_ok_inv (x : Tensor F) (w w' : World F)
    (r : Tensor F * Tensor F * Tensor F) :
  model_call x w = (Ok r, w') ->
  same_model w w' /\ w_training w' = w_training w /\ w_out w' = w_out w.
Proof.
  unfold model_call. destruct (forward _ _ _ _) as [r' rng].
  intros [= _ <-]. now repeat split.
Qed.

(** What the first pass of the loop body of [test] that returns has done. *)
Lemma test_batch_first (g : Globals F) (epoch : Z) (ds : Dataset F)
    (idxs : list nat) (acc acc' : F) (w w' : World F) :
  test_batch g epoch ds 0 idxs acc w = (Ok acc', w') ->
  exists cmp,
    w_out w' = w_out w ++ [SaveImage cmp (reconstruction_file g epoch)
                             (Nat.min (length idxs) 8)] /\
    shape cmp = [2 * Nat.min (length idxs) 8; 3; 32; 32] /\
    (batch_size (args g) = -1 \/
     batch_size (args g) = Z.of_nat (length idxs))%Z /\
    idxs <> [] /\
    forall i, In i idxs ->
      exists img lbl, nth_error ds i = Some (img, lbl) /\
                      shape img = [3; 32; 32].
Proof.
  unfold test_batch. intros E.
  apply bind_ok_inv in E as (x & w1 & E1 & E).
  apply lift_ok_inv in E1 as (Hf & ->).
  apply bind_ok_inv in E as ([[recon mu] logvar] & w2 & E2 & E).
  apply model_call_ok_inv in E2 as (_ & _ & Hout2).
  apply bind_ok_inv in E as (loss & w3 & E3 & E).
  apply lift_ok_inv in E3 as (Hl & ->).
  apply bind_ok_inv in E as ([] & w4 & E4 & E).
  injection E as _ <-.
  cbn [Nat.eqb] in E4.
  apply bind_ok_inv in E4 as (orig & w5 & E5 & E4).
  apply lift_ok_inv in E5 as (Horig & ->).
  apply bind_ok_inv in E4 as (rv & w6 & E6 & E4).
  apply lift_ok_inv in E6 as (Hrv & ->).
  apply bind_ok_inv in E4 as (rec & w7 & E7 & E4).
  apply lift_ok_inv in E7 as (Hrec & ->).
  apply bind_ok_inv in E4 as (cmp & w8 & E8 & E4).
  apply lift_ok_inv in E8 as (Hcmp & ->).
  unfold emit in E4. injection E4 as <-. cbn [w_out].
  apply fetch_ok_inv in Hf as (s & Hsx & Hne & Himgs).
  apply loss_function_MSE_inv in Hl as (bce & _ & _ & Hb & _).
  assert (Hbce : exists b, BCE_term recon x = Ok b) by eauto.
  apply BCE_term_returns_iff in Hbce as (Hmod & Hsr & _).
  apply view_image_batch_inv in Hrv as (d & Hsrv & Hnr & Hbs).
  apply take0_shape in Horig as (d1 & r1 & Hx1 & Ho).
  apply take0_shape in Hrec as (d2 & r2 & Hrv2 & Hr).
  apply cat0_shape in Hcmp as (da & db & rest & Ho' & Hr' & Hc).
  rewrite Hsx in Hx1. injection Hx1 as <- <-.
  rewrite Hsrv in Hrv2. injection Hrv2 as <- <-.
  rewrite Ho in Ho'. injection Ho' as <- <-.
  rewrite Hr in Hr'. injection Hr' as <- <-.
  unfold size0 in Hc. rewrite Hsx in Hc. cbn [hd] in Hc.
  unfold size0. rewrite Hsx. cbn [hd].
  assert (Hnx : numel x = length idxs * 3072).
  { unfold numel. rewrite Hsx. apply numel_image_batch. }
  assert (Hd : d = length idxs).
  { unfold numel in Hnr. rewrite Hsr, numel_matrix, Hnx in Hnr.
    rewrite Nat.div_mul in Hnr by discriminate. lia. }
  subst d. exists cmp.
  split; [now rewrite Hout2|].
  split; [rewrite Hc; f_equal; lia|].
  split; [exact Hbs|]. split; [exact Hne|].
  exact Himgs.
Qed.

Lemma test_batch_later (g : Globals F) (epoch : Z) (ds : Dataset F)
    (i : nat) (idxs : list nat) (acc acc' : F) (w w' : World F) :
  test_batch g epoch ds (S i) idxs acc w = (Ok acc', w') ->
  w_out w' = w_out w.
Proof.
  unfold test_batch. intros E.
  apply bind_ok_inv in E as (x & w1 & E1 & E).
  apply lift_ok_inv in E1 as (_ & ->).
  apply bind_ok_inv in E as ([[recon mu] logvar] & w2 & E2 & E).
  apply model_call_ok_inv in E2 as (_ & _ & Hout2).
  apply bind_ok_inv in E as (loss & w3 & E3 & E).
  apply lift_ok_inv in E3 as (_ & ->).
  apply bind_ok_inv in E as ([] & w4 & E4 & E).
  injection E as _ <-. cbn [Nat.eqb] in E4. injection E4 as <-.
  exact Hout2.
Qed.

Lemma test_loop_later (g : Globals F) (epoch : Z) (ds : Dataset F)
    (batches : list (list nat)) :
  forall i acc acc' w w',
    test_loop g epoch ds batches (S i) acc w = (Ok acc', w') ->
    w_out w' = w_out w.
Proof.
  induction batches as [|idxs rest IH]; intros i acc acc' w w' E; simpl in E.
  - now injection E as _ <-.
  - apply bind_ok_inv in E as (acc1 & w1 & E1 & E).
    apply test_batch_later in E1. apply IH in E. congruence.
Qed.

Lemma test_ok_inv (g : Globals F) (epoch : Z) (w w' : World F) :
  test g epoch w = (Ok tt, w') ->
  exists ds batches avg,
    loader_dataset g (test_loader g) = Ok ds /\ ds <> [] /\
    fst (loader_batches (test_loader g) (length ds) w) = Ok batches /\
    w_training w' = false /\
    match batches with
    | [] => w_out w' = w_out w ++ [PrintTestLoss avg]
    | first :: _ =>
        exists cmp,
          w_out w' = w_out w ++
            [SaveImage cmp (reconstruction_file g epoch)
               (Nat.min (length first) 8); PrintTestLoss avg] /\
          shape cmp = [2 * Nat.min (length first) 8; 3; 32; 32] /\
          (batch_size (args g) = -1 \/
           batch_size (args g) = Z.of_nat (length first))%Z /\
          first <> [] /\
          forall i, In i first ->
            exists img lbl, nth_error ds i = Some (img, lbl) /\
                            shape img = [3; 32; 32]
    end.
Proof.
  unfold test. intros E.
  apply bind_ok_inv in E as ([] & w1 & E1 & E).
  injection E1 as <-.
  apply bind_ok_inv in E as (ds & w2 & E2 & E).
  apply lift_ok_inv in E2 as (Hds & ->).
  apply bind_ok_inv in E as (batches & w3 & E3 & E).
  apply bind_ok_inv in E as (loss & w4 & E4 & E).
  apply bind_ok_inv in E as (avg & w5 & E5 & E).
  apply lift_ok_inv in E5 as (Hdiv & ->).
  unfold emit in E. injection E as <-.
  apply py_div_ok_inv in Hdiv as (Hdiv & _).
  destruct (loader_batches_inv _ _ _ E3) as (_ & Hm & Hout & _).
  cbn [w_params w_training w_rng w_grads w_opt w_out] in *.
  exists ds, batches, avg.
  split; [exact Hds|]. split; [now destruct ds|].
  split.
  { change (Ok batches) with (fst (Ok batches, w3)). rewrite <- E3.
    symmetry. now apply loader_batches_rng. }
  assert (Hmode : w_training w4 = false).
  { pose proof (keeps_mode_test_loop g epoch ds batches 0 fzero w3) as Hk.
    rewrite E4 in Hk. simpl in Hk. congruence. }
  split; [exact Hmode|].
  destruct batches as [|first rest]; simpl in E4.
  - injection E4 as _ <-. cbn [w_out]. now rewrite Hout.
  - apply bind_ok_inv in E4 as (acc1 & w5 & E5 & E4).
    apply test_batch_first in E5 as (cmp & Hout5 & Hrest).
    apply test_loop_later in E4.
    exists cmp. split; [|exact Hrest].
    cbn [w_out]. rewrite E4, Hout5, Hout, <- app_assoc. reflexivity.
Qed.

End EvaluationRuns.

(* ===================================================================== *)
(** * Facts about the batches of a loader                               *)
(* ===================================================================== *)

Section LoaderFacts.
Context {F : Type} `{Scalar F} `{Imports F}.

Lemma batch_sampler_count (bs : nat) (idxs : list nat) :
  0 < bs ->
  forall cur, length cur < bs ->
    length (batch_sampler bs idxs cur)
    = (length cur + length idxs + bs - 1) / bs.
Proof.
  intros Hbs. induction idxs as [|i rest IH]; intros cur Hcur; simpl.
  - destruct cur as [|c cur']; simpl.
    + symmetry. apply Nat.div_small. lia.
    + simpl in Hcur. apply (Nat.div_unique _ _ _ (length cur')); lia.
  - rewrite length_app. simpl length.
    destruct (length cur + 1 =? bs) eqn:Efull.
    + apply Nat.eqb_eq in Efull. simpl. rewrite (IH []) by (simpl; lia).
      simpl length.
      replace (length cur + S (length rest) + bs - 1)
        with (1 * bs + (0 + length rest + bs - 1)) by lia.
      rewrite Nat.div_add_l by lia. reflexivity.
    + apply Nat.eqb_neq in Efull. rewrite IH by (rewrite length_app; simpl; lia).
      rewrite length_app. simpl length. f_equal. lia.
Qed.

(** Every batch but the last has [bs] indices; a last incomplete batch is
    not empty. *)
Lemma batch_sampler_full (bs : nat) (idxs : list nat) :
  forall cur, length cur < bs ->
    exists full last,
      batch_sampler bs idxs cur = full ++ last /\
      Forall (fun b => length b = bs) full /\
      (last = [] \/ exists b, last = [b] /\ 0 < length b < bs).
Proof.
  induction idxs as [|i rest IH]; intros cur Hcur; simpl.
  - exists [].
    destruct cur as [|c cur'].
    + exists []. auto.
    + exists [c :: cur']. repeat split; auto. right.
      exists (c :: cur'). simpl in *. split; [reflexivity | lia].
  - rewrite length_app. simpl length.
    destruct (length cur + 1 =? bs) eqn:Efull.
    + apply Nat.eqb_eq in Efull.
      destruct (IH []) as (full & last & E & Hfull & Hlast); [simpl; lia|].
      exists ((cur ++ [i]) :: full), last. rewrite E.
      split; [reflexivity|]. split; [|exact Hlast].
      constructor; [|exact Hfull]. rewrite length_app. simpl. exact Efull.
    + apply Nat.eqb_neq in Efull.
      apply IH. rewrite length_app. simpl. lia.
Qed.

Lemma batch_sampler_nonempty (bs : nat) (idxs : list nat) :
  forall cur, Forall (fun b => b <> []) (batch_sampler bs idxs cur).
Proof.
  induction idxs as [|i rest IH]; intros cur; simpl.
  - destruct cur; constructor; [discriminate | constructor].
  - destruct (_ =? _); [constructor|]; auto.
    now destruct cur.
Qed.

Lemma loader_batches_permuted (dl : DataLoader) (n : nat) (w w' : World F)
    (batches : list (list nat)) :
  (forall m r, Permutation (fst (randperm m r)) (seq 0 m)) ->
  loader_batches dl n w = (Ok batches, w') ->
  exists idxs, batches = batch_sampler (dl_batch_size dl) idxs [] /\
               Permutation idxs (seq 0 n).
Proof.
  intros Hperm E.
  destruct (loader_batches_inv _ _ _ E) as (_ & _ & _ & idxs & Hb & Hi).
  exists idxs. split; [exact Hb|]. subst idxs.
  destruct (dl_shuffle dl); [apply Hperm | apply Permutation_refl].
Qed.

Lemma fetch_images_succeeds (ds : Dataset F) (s : list nat) (idxs : list nat) :
  images_of_size s ds ->
  (forall i, In i idxs -> i < length ds) ->
  exists imgs, fetch_images ds idxs = Ok imgs /\
               length imgs = length idxs /\
               Forall (fun t => shape t = s) imgs.
Proof.
  intros Hs. induction idxs as [|i rest IH]; intros Hin; simpl.
  - exists []. repeat split. constructor.
  - destruct (nth_error ds i) as [[img lbl]|] eqn:Ei.
    + destruct IH as (imgs & -> & Hlen & Hall);
        [intros j Hj; apply Hin; now right|].
      cbn [rbind]. exists (img :: imgs). split; [reflexivity|].
      split; [simpl; now rewrite Hlen|].
      constructor; [|exact Hall].
      apply nth_error_In in Ei. exact (Hs _ _ Ei).
    + apply nth_error_None in Ei. specialize (Hin i (or_introl eq_refl)). lia.
Qed.

Lemma fetch_succeeds (ds : Dataset F) (s : list nat) (idxs : list nat) :
  images_of_size s ds -> idxs <> [] ->
  (forall i, In i idxs -> i < length ds) ->
  exists x, fetch ds idxs = Ok x /\ shape x = length idxs :: s.
Proof.
  intros Hs Hne Hin.
  destruct (fetch_images_succeeds idxs Hs Hin) as (imgs & Ef & Hlen & Hall).
  unfold fetch. rewrite Ef. cbn [rbind]. unfold stack.
  destruct imgs as [|t0 imgs'].
  { destruct idxs; [now destruct Hne | discriminate]. }
  assert (Ha : forallb (fun t => shape_eqb (shape t) (shape t0)) (t0 :: imgs')
               = true).
  { apply forallb_forall. intros t Ht.
    rewrite Forall_forall in Hall.
    rewrite (Hall t Ht), (Hall t0 (or_introl eq_refl)). apply shape_eqb_refl. }
  rewrite Ha. eexists; split; [reflexivity|]. cbn [shape].
  rewrite Hlen. f_equal. inversion Hall; assumption.
Qed.

End LoaderFacts.

(* ===================================================================== *)
(** * How a pass of the training loop fails; the steps of a run         *)
(* ===================================================================== *)

Section FailureFacts.
Context {F : Type} `{Scalar F} `{Imports F}.

Lemma bind_err_inv {S A B} (c : M S A) (k : A -> M S B) (s s' : S)
    (e : error) :
  bind c k s = (Err e, s') ->
  c s = (Err e, s') \/ exists a s1, c s = (Ok a, s1) /\ k a s1 = (Err e, s').
Proof.
  unfold bind. destruct (c s) as [[a|e'] s1]; intros E; [right; eauto|].
  left. now injection E as <- <-.
Qed.

Lemma py_mod_err (a b : Z) (e : error) :
  py_mod a b = Err e -> e = ZeroDivisionError.
Proof. unfold py_mod. destruct (b =? 0)%Z; now intros [= <-]. Qed.

Lemma py_div_err (x : F) (n : nat) (e : error) :
  py_div x n = Err e -> e = ZeroDivisionError.
Proof. destruct n; now intros [= <-]. Qed.

End FailureFacts.

Section EpochFacts.
Context {F : Type} `{Scalar F} `{Imports F}.

Lemma loader_batches_length (dl : DataLoader) (n : nat) (w : World F)
    (batches : list (list nat)) :
  (forall m r, Permutation (fst (randperm m r)) (seq 0 m)) ->
  0 < dl_batch_size dl ->
  fst (loader_batches dl n w) = Ok batches ->
  length batches = loader_len dl n.
Proof.
  intros Hperm Hbs E.
  destruct (loader_batches dl n w) as [r w'] eqn:El. simpl in E. subst r.
  apply loader_batches_permuted in El as (idxs & -> & Hp); [|exact Hperm].
  rewrite batch_sampler_count by (simpl; lia).
  apply Permutation_length in Hp. rewrite length_seq in Hp.
  unfold loader_len. simpl. now rewrite Hp.
Qed.

Lemma epochs_steps_length (ds : Dataset F) (nb n : nat) (p p' : Params)
    (o o' : OptState) (gs : list Grads) :
  epochs_steps ds nb n p o gs p' o' -> length gs = n * nb.
Proof.
  induction 1 as [| n batches p p1 p' o o1 o' r r1 gs gs' Hnb _ Hs _ IH];
    [reflexivity|].
  apply steps_run_length in Hs. rewrite length_app. simpl. lia.
Qed.

Lemma epochs_run_steps (g : Globals F) (ds : Dataset F) (l : list Z)
    (w w' : World F) :
  (forall m r, Permutation (fst (randperm m r)) (seq 0 m)) ->
  0 < dl_batch_size (train_loader g) ->
  loader_dataset g (train_loader g) = Ok ds ->
  epochs_run g l w w' ->
  exists gs,
    epochs_steps ds (loader_len (train_loader g) (length ds)) (length l)
      (w_params w) (w_opt w) gs (w_params w') (w_opt w').
Proof.
  intros Hperm Hbs Hds R.
  induction R as [w | epoch rest w w1 w2 w' z dec img rng
                       Htrain Htest Hz Hd Hv Hrest IH].
  - exists []. constructor.
  - apply train_ok_inv in Htrain
      as (ds' & batches & wl & gs1 & lines & avg & Hds' & _ & Hb & _ & Hsteps
          & _).
    rewrite Hds in Hds'. injection Hds' as <-.
    pose proof (loader_batches_cover _ _ _ Hperm Hb) as Hcover.
    assert (Hlen : length batches
                   = loader_len (train_loader g) (length ds)).
    { apply (loader_batches_length (train_loader g) (length ds) w Hperm Hbs).
      now rewrite Hb. }
    destruct IH as (gs2 & Hsteps2).
    pose proof (frame_test g epoch w1) as (Hp & _ & Ho).
    rewrite Htest in Hp, Ho. simpl in Hp, Ho.
    cbn [after_sample w_params w_opt] in Hsteps2.
    rewrite Hp, Ho in Hsteps2.
    exists (gs1 ++ gs2). simpl length.
    exact (epochs_more Hlen Hcover Hsteps Hsteps2).
Qed.

Lemma range_length (n : Z) : length (range 1 (n + 1)) = Z.to_nat n.
Proof. now rewrite range_from_one, length_map, length_seq. Qed.

End EpochFacts.

(* ===================================================================== *)
(** * Facts about the image file names                                  *)
(* ===================================================================== *)

Section FileNames.
Open Scope string_scope.

Lemma append_length (a b : string) :
  String.length (a ++ b) = String.length a + String.length b.
Proof. induction a as [|c a IH]; simpl; [reflexivity | now rewrite IH]. Qed.

Lemma append_cancel_l (p a b : string) : p ++ a = p ++ b -> a = b.
Proof.
  induction p as [|c p IH]; simpl; [auto|]. intros [= E]. now apply IH.
Qed.

Lemma append_cancel_r (t : string) :
  forall a b : string, a ++ t = b ++ t -> a = b.
Proof.
  induction a as [|c a IH]; intros [|c' b] E; simpl in E.
  - reflexivity.
  - apply (f_equal String.length) in E. simpl in E.
    rewrite append_length in E. lia.
  - apply (f_equal String.length) in E. simpl in E.
    rewrite append_length in E. lia.
  - injection E as -> E. f_equal. now apply IH.
Qed.

Lemma to_int_nonnil (z : Z) :
  Z.to_int z <> Decimal.Pos Decimal.Nil /\
  Z.to_int z <> Decimal.Neg Decimal.Nil.
Proof.
  destruct z as [|p|p]; simpl; split; try discriminate;
    intros [= E]; exact (DecimalPos.Unsigned.to_uint_nonnil p E).
Qed.

(** Python's [str] maps different integers to different strings. *)
Lemma str_inj (a b : Z) : str a = str b -> a = b.
Proof.
  unfold str. intros E.
  apply (f_equal NilZero.int_of_string) in E.
  destruct (to_int_nonnil a) as (Ha1 & Ha2).
  destruct (to_int_nonnil b) as (Hb1 & Hb2).
  rewrite !NilZero.isi in E by assumption.
  injection E as E. apply (f_equal Z.of_int) in E.
  now rewrite !DecimalZ.of_to in E.
Qed.

End FileNames.

Section TimeStamp.
Open Scope string_scope.

Lemma append_assoc (a b c : string) : (a ++ b) ++ c = a ++ (b ++ c).
Proof. induction a as [|x a IH]; simpl; [reflexivity | now rewrite IH]. Qed.

(** A string is cut at the first occurrence of a character in one way. *)
Lemma split_at_char (c : ascii) (r r' : string) :
  forall a b : string,
    has_char c a = false -> has_char c b = false ->
    a ++ String c r = b ++ String c r' -> a = b /\ r = r'.
Proof.
  induction a as [|x a IH]; intros [|y b] Ha Hb E; simpl in *.
  - now injection E as ->.
  - injection E as -> _. now rewrite Ascii.eqb_refl in Hb.
  - injection E as -> _. now rewrite Ascii.eqb_refl in Ha.
  - injection E as -> E.
    apply orb_false_iff in Ha as (_ & Ha). apply orb_false_iff in Hb as (_ & Hb).
    destruct (IH b Ha Hb E) as (-> & ->). auto.
Qed.

Lemma string_of_uint_no_underscore (d : Decimal.uint) :
  has_char "_" (NilEmpty.string_of_uint d) = false.
Proof. induction d; simpl; auto. Qed.

Lemma str_no_underscore (z : Z) : has_char "_" (str z) = false.
Proof.
  unfold str, NilZero.string_of_int, NilZero.string_of_uint.
  destruct (Z.to_int z) as [d|d]; destruct d; simpl;
    first [ reflexivity | apply string_of_uint_no_underscore ].
Qed.

(** The time stamp followed by the epoch number can be read back. *)
Lemma timestring_epoch_inj (t1 t2 : struct_time) (e1 e2 : Z) (tail : string) :
  mk_timestring t1 ++ str e1 ++ tail = mk_timestring t2 ++ str e2 ++ tail ->
  t1 = t2 /\ e1 = e2.
Proof.
  destruct t1 as [y1 m1 d1 h1], t2 as [y2 m2 d2 h2].
  unfold mk_timestring. cbn [tm_year tm_mon tm_mday tm_hour].
  rewrite !append_assoc. cbn [append]. intros E. injection E as E.
  apply split_at_char in E as (Ey & E); try apply str_no_underscore.
  apply split_at_char in E as (Em & E); try apply str_no_underscore.
  apply split_at_char in E as (Ed & E); try apply str_no_underscore.
  apply split_at_char in E as (Eh & E); try apply str_no_underscore.
  apply append_cancel_r in E.
  apply str_inj in Ey, Em, Ed, Eh, E. now subst.
Qed.

End TimeStamp.

Section FileNameProperties.
Context {F : Type} `{Scalar F} `{Imports F}.

(** X16.  The names of the image files determine the hour in which the run
    saw the clock (year, month, day, hour) and the epoch: two images get the
    same name only if they are written in the same epoch of runs whose time
    stamps were taken in the same hour. *)
Theorem image_files_identify_hour_and_epoch (g1 g2 : Globals F)
    (t1 t2 : struct_time) (e1 e2 : Z) :
  timestring g1 = mk_timestring t1 ->
  timestring g2 = mk_timestring t2 ->
  sample_file g1 e1 = sample_file g2 e2 \/
  reconstruction_file g1 e1 = reconstruction_file g2 e2 ->
  t1 = t2 /\ e1 = e2.
Proof.
  unfold sample_file, reconstruction_file. intros -> -> [E | E];
    apply append_cancel_l in E; rewrite <- !append_assoc in E;
    rewrite !(append_assoc (mk_timestring _)) in E;
    eapply timestring_epoch_inj; exact E.
Qed.

End FileNameProperties.

(** X16 on the small environment. *)
Lemma image_files_identify_hour_and_epoch_witness :
  timestring Fixture.globals = mk_timestring Fixture.now /\
  (sample_file Fixture.globals 1 = sample_file Fixture.globals 1 \/
   reconstruction_file Fixture.globals 1
   = reconstruction_file Fixture.globals 1) /\
  Fixture.now = Fixture.now /\ 1%Z = 1%Z.
Proof.
  assert (Ht : timestring Fixture.globals = mk_timestring Fixture.now)
    by reflexivity.
  assert (Hs : sample_file Fixture.globals 1 = sample_file Fixture.globals 1 \/
               reconstruction_file Fixture.globals 1
               = reconstruction_file Fixture.globals 1)
    by (left; reflexivity).
  split; [exact Ht|]. split; [exact Hs|].
  exact (image_files_identify_hour_and_epoch Ht Ht Hs).
Defined.

(* ===================================================================== *)
(** * What a call of [train] and of [test] does                           *)
(* ===================================================================== *)

Section RunProperties.
Context {F : Type} `{Scalar F} `{Imports F}.

(** X5.  A call of [train] that returns has made exactly one optimizer step
    for each batch of the loader, in order.  The step of a batch uses the
    gradient of the loss of the forward pass on that batch, at the
    parameters the steps before have left, computed in training mode after
    the gradients were cleared: nothing is accumulated from one batch to the
    next.  The gradients that remain are those of the last batch. *)
Theorem train_steps_once_per_batch (g : Globals F) (epoch : Z)
    (w w' : World F) :
  train g epoch w = (Ok tt, w') ->
  exists ds batches wl gs,
    loader_dataset g (train_loader g) = Ok ds /\
    loader_batches (train_loader g) (length ds) w = (Ok batches, wl) /\
    steps_run ds batches (w_params w) (w_opt w) (w_rng wl) gs
      (w_params w') (w_opt w') (w_rng w') /\
    length gs = length batches /\
    w_grads w' = last gs (w_grads w).
Proof.
  intros E.
  apply train_ok_inv in E
    as (ds & batches & wl & gs & lines & avg & Hds & _ & Hb & _ & Hsteps
        & Hgr & _).
  exists ds, batches, wl, gs.
  repeat (split; [assumption|]).
  split; [exact (steps_run_length Hsteps) | exact Hgr].
Qed.

(** X6.  With a sampler that returns permutations, [train] returns only if
    [--log-interval] is not 0 and the dataset is not empty: otherwise
    [batch_idx % args.log_interval] (line 87) or the division by
    [len(train_loader.dataset)] (line 94) raises. *)
Theorem train_returns_only_if (g : Globals F) (epoch : Z) (w w' : World F) :
  (forall m r, Permutation (fst (randperm m r)) (seq 0 m)) ->
  train g epoch w = (Ok tt, w') ->
  log_interval (args g) <> 0%Z /\
  exists ds, loader_dataset g (train_loader g) = Ok ds /\ ds <> [].
Proof.
  intros Hperm E.
  apply train_ok_inv in E
    as (ds & batches & wl & gs & lines & avg & Hds & Hne & Hb & Hli & _).
  split; [|now exists ds].
  apply Hli. intros ->.
  apply (f_equal fst) in Hb. simpl in Hb.
  apply loader_batches_nonempty in Hb; [|exact Hperm].
  now destruct ds.
Qed.

(** X7.  When the body of the training loop raises, either the parameters,
    the optimizer state and the output are as before the batch, or the
    exception is a ZeroDivisionError raised by the logging code of lines
    87-91, after the optimizer step of that batch has been made. *)
Theorem train_batch_failure (g : Globals F) (epoch : Z) (ds : Dataset F)
    (k : nat) (idxs : list nat) (acc : F) (w w' : World F) (e : error) :
  train_batch g epoch ds k idxs acc w = (Err e, w') ->
  (w_params w' = w_params w /\ w_opt w' = w_opt w /\ w_out w' = w_out w) \/
  (e = ZeroDivisionError /\
   exists x, fetch ds idxs = Ok x /\
     (w_params w', w_opt w')
     = adam_step (w_params w)
         (backward "MSE" (w_params w) (w_training w) x (w_rng w) no_grads)
         (w_opt w)).
Proof.
  unfold train_batch. intros E.
  apply bind_err_inv in E as [E | (x & w1 & E1 & E)].
  { injection E as _ <-. now left. }
  apply lift_ok_inv in E1 as (Hf & ->).
  apply bind_err_inv in E as [E | ([] & w2 & E2 & E)]; [discriminate|].
  injection E2 as <-.
  apply bind_err_inv in E as [E | (r0 & w3 & E3 & E)]; [discriminate|].
  injection E3 as <- <-.
  apply bind_err_inv in E as [E | ([[recon mu] logvar] & w4 & E4 & E)].
  { unfold model_call in E. destruct (forward _ _ _ _) as [r rng].
    injection E as _ <-. now left. }
  unfold model_call in E4;
    cbn [w_params w_training w_rng w_grads w_opt w_out] in E4.
  destruct (forward (w_params w) (w_training w) x (w_rng w)) as [r rng].
  injection E4 as _ <-.
  apply bind_err_inv in E as [E | (loss & w5 & E5 & E)].
  { injection E as _ <-. now left. }
  apply lift_ok_inv in E5 as (_ & ->).
  apply bind_err_inv in E as [E | ([] & w6 & E6 & E)]; [discriminate|].
  unfold loss_backward in E6;
    cbn [w_params w_training w_rng w_grads w_opt w_out] in E6.
  injection E6 as <-.
  assert (Hstep : forall e1 w1, optimizer_step
            (mkWorld (w_params w) (w_training w)
               (backward "MSE" (w_params w) (w_training w) x (w_rng w)
                  no_grads) (w_opt w) rng (w_out w)) <> (Err e1, w1)).
  { intros e1 w1. unfold optimizer_step. now destruct (adam_step _ _ _). }
  apply bind_err_inv in E as [E | ([] & w7 & E7 & E)];
    [now apply Hstep in E|].
  unfold optimizer_step in E7;
    cbn [w_params w_training w_rng w_grads w_opt w_out] in E7.
  destruct (adam_step (w_params w)
              (backward "MSE" (w_params w) (w_training w) x (w_rng w)
                 no_grads) (w_opt w)) as [p o] eqn:Est.
  injection E7 as <-.
  right.
  assert (Hdone : forall w9, w_params w9 = p -> w_opt w9 = o ->
            exists x0, fetch ds idxs = Ok x0 /\
              (w_params w9, w_opt w9)
              = adam_step (w_params w)
                  (backward "MSE" (w_params w) (w_training w) x0 (w_rng w)
                     no_grads) (w_opt w)).
  { intros w9 Hp Ho. exists x. now rewrite Est, Hp, Ho. }
  apply bind_err_inv in E as [E | (m & w8 & E8 & E)].
  { injection E as Hm <-. apply py_mod_err in Hm. split; [exact Hm|].
    now apply Hdone. }
  apply lift_ok_inv in E8 as (_ & ->).
  apply bind_err_inv in E as [E | ([] & w9 & _ & E)]; [|discriminate].
  destruct (m =? 0)%Z; [|discriminate].
  apply bind_err_inv in E as [E | (pct & w10 & E10 & E)].
  { injection E as Hd <-. apply py_div_err in Hd. split; [exact Hd|].
    now apply Hdone. }
  apply lift_ok_inv in E10 as (_ & ->).
  apply bind_err_inv in E as [E | (per & w11 & E11 & E)]; [|discriminate].
  injection E as Hd <-. apply py_div_err in Hd. split; [exact Hd|].
  now apply Hdone.
Qed.

(** X8.  A call of [train] that returns prints one progress line for each
    batch whose index is a multiple of [--log-interval], in order, then the
    summary line of the epoch, and nothing else.  The progress line of batch
    [k] counts [k * len(data)] examples seen, [len(data)] being the size of
    that batch, out of the size of the dataset.  (The percentage and the
    losses the lines show are not described here.) *)
Theorem train_output (g : Globals F) (epoch : Z) (w w' : World F) :
  train g epoch w = (Ok tt, w') ->
  exists ds batches lines avg,
    loader_dataset g (train_loader g) = Ok ds /\
    fst (loader_batches (train_loader g) (length ds) w) = Ok batches /\
    w_out w' = w_out w ++ lines ++ [PrintTrainEpoch epoch avg] /\
    Forall2 (progress_line epoch (length ds))
      (logged_batches (log_interval (args g)) batches) lines.
Proof.
  intros E.
  apply train_ok_inv in E
    as (ds & batches & wl & gs & lines & avg & Hds & _ & Hb & _ & _ & _
        & Hout & Hl).
  exists ds, batches, lines, avg. now rewrite Hb.
Qed.

(** X9.  With a sampler that returns permutations, a call of [test] that
    returns has written exactly one comparison image, for the first batch,
    under the reconstruction file name of the epoch, and then printed one
    test-loss line (whose value is not described here).  The images of the
    first batch are of size 3x32x32 and, unless [--batch-size] is -1, there
    are exactly [--batch-size] of them, so the dataset has at least that
    many examples: [recon_batch.view] (line 108) raises on a first batch
    that is not full.  The comparison holds [min(batch, 8)] originals and as
    many reconstructions. *)
Theorem test_output (g : Globals F) (epoch : Z) (w w' : World F) :
  (forall m r, Permutation (fst (randperm m r)) (seq 0 m)) ->
  test g epoch w = (Ok tt, w') ->
  exists ds first rest cmp avg,
    loader_dataset g (test_loader g) = Ok ds /\
    fst (loader_batches (test_loader g) (length ds) w) = Ok (first :: rest) /\
    w_out w' = w_out w ++
      [SaveImage cmp (reconstruction_file g epoch) (Nat.min (length first) 8);
       PrintTestLoss avg] /\
    shape cmp = [2 * Nat.min (length first) 8; 3; 32; 32] /\
    (batch_size (args g) = -1 \/
     batch_size (args g) = Z.of_nat (length first))%Z /\
    0 < length first <= length ds /\
    forall i, In i first ->
      exists img lbl, nth_error ds i = Some (img, lbl) /\
                      shape img = [3; 32; 32].
Proof.
  intros Hperm E.
  apply test_ok_inv in E as (ds & batches & avg & Hds & Hne & Hb & _ & Hout).
  destruct batches as [|first rest].
  { apply loader_batches_nonempty in Hb; [|exact Hperm]. now destruct ds. }
  destruct Hout as (cmp & Hout & Hs & Hbs & Hf & Himgs).
  exists ds, first, rest, cmp, avg.
  do 5 (split; [assumption|]). split; [|exact Himgs].
  split; [destruct first; [now destruct Hf | simpl; lia]|].
  destruct (loader_batches (test_loader g) (length ds) w) as [r w1] eqn:El.
  simpl in Hb. subst r.
  apply loader_batches_cover in El; [|exact Hperm].
  apply Permutation_length in El. rewrite length_seq in El.
  simpl in El. rewrite length_app in El. lia.
Qed.

(** X10.  Whether it returns or raises, [train] leaves the model in
    training mode and [test] leaves it in evaluation mode; so the images of
    lines 122-126, which follow [test], are decoded in evaluation mode. *)
Theorem mode_of_each_phase (g : Globals F) (epoch : Z) (w : World F) :
  w_training (snd (train g epoch w)) = true /\
  w_training (snd (test g epoch w)) = false /\
  forall w', sample_images g epoch (snd (test g epoch w)) = (Ok tt, w') ->
    w_training w' = false /\
    exists z rng dec,
      randn [64; 128] (w_rng (snd (test g epoch w))) = (z, rng) /\
      decode (w_params (snd (test g epoch w))) false z = Ok dec.
Proof.
  split; [apply train_mode|]. split; [apply test_mode|].
  intros w' E.
  pose proof (keeps_mode_sample_images g epoch (snd (test g epoch w))) as Hk.
  rewrite E, test_mode in Hk. split; [exact Hk|].
  apply sample_images_ok_iff in E as (z & dec & img & rng & Hz & Hd & _).
  rewrite test_mode in Hd. now exists z, rng, dec.
Qed.

(** X11.  With [--epochs] zero or negative the loop of line 119 has no
    iteration: [main] returns and the state is as it was. *)
Theorem main_without_epochs (g : Globals F) (w : World F) :
  (epochs (args g) <= 0)%Z -> main g w = (Ok tt, w).
Proof.
  intros He. unfold main, range.
  replace (Z.to_nat (epochs (args g) + 1 - 1)) with 0 by lia. reflexivity.
Qed.

(** X12.  The image files of different epochs have different names, and a
    sample file is never a reconstruction file: no image written by a run
    overwrites another one of the same run. *)
Theorem image_files_distinct (g : Globals F) (e1 e2 : Z) :
  (sample_file g e1 = sample_file g e2 -> e1 = e2) /\
  (reconstruction_file g e1 = reconstruction_file g e2 -> e1 = e2) /\
  sample_file g e1 <> reconstruction_file g e2.
Proof.
  unfold sample_file, reconstruction_file.
  split; [|split].
  - intros E. apply append_cancel_l, append_cancel_l in E.
    apply append_cancel_r in E. now apply str_inj.
  - intros E. apply append_cancel_l, append_cancel_l in E.
    apply append_cancel_r in E. now apply str_inj.
  - cbn. intros E. discriminate E.
Qed.

(** X13.  With a sampler that returns permutations and a positive batch
    size, one pass over a loader on [n] examples yields [len(loader)]
    batches, that is [n / batch_size] rounded up; every batch but the last
    has [batch_size] indices, a last incomplete batch is kept and is not
    empty, and together the batches hold each index below [n] once. *)
Theorem loader_batches_shape (dl : DataLoader) (n : nat) (w w' : World F)
    (batches : list (list nat)) :
  (forall m r, Permutation (fst (randperm m r)) (seq 0 m)) ->
  0 < dl_batch_size dl ->
  loader_batches dl n w = (Ok batches, w') ->
  length batches = loader_len dl n /\
  Permutation (concat batches) (seq 0 n) /\
  exists full last,
    batches = full ++ last /\
    Forall (fun b => length b = dl_batch_size dl) full /\
    (last = [] \/ exists b, last = [b] /\ 0 < length b < dl_batch_size dl).
Proof.
  intros Hperm Hbs E.
  split; [apply (loader_batches_length dl n w Hperm Hbs); now rewrite E|].
  split; [exact (loader_batches_cover _ _ _ Hperm E)|].
  apply loader_batches_permuted in E as (idxs & -> & _); [|exact Hperm].
  apply batch_sampler_full. simpl. exact Hbs.
Qed.

(** X14.  With a sampler that returns permutations, on a dataset whose
    images all have one size, fetching any batch of a pass succeeds: no index
    is out of range, the collate function accepts the images, and the batch
    has one row for each index. *)
Theorem loader_batches_fetch (dl : DataLoader) (ds : Dataset F)
    (s : list nat) (w w' : World F) (batches : list (list nat)) :
  (forall m r, Permutation (fst (randperm m r)) (seq 0 m)) ->
  images_of_size s ds ->
  loader_batches dl (length ds) w = (Ok batches, w') ->
  Forall (fun b => exists x, fetch ds b = Ok x /\ shape x = length b :: s)
    batches.
Proof.
  intros Hperm Hs E.
  pose proof (loader_batches_cover _ _ _ Hperm E) as Hc.
  apply loader_batches_permuted in E as (idxs & Hb & _); [|exact Hperm].
  pose proof (batch_sampler_nonempty (dl_batch_size dl) idxs []) as Hne.
  rewrite <- Hb in Hne. clear Hb.
  rewrite Forall_forall in *. intros b Hin.
  apply fetch_succeeds; [exact Hs | now apply Hne |].
  intros i Hi.
  assert (Hic : In i (concat batches)) by (apply in_concat; eauto).
  apply (Permutation_in _ Hc) in Hic. apply in_seq in Hic. lia.
Qed.

(** X15.  With a sampler that returns permutations and a positive batch
    size, a run of [main] that returns has made
    [epochs * len(train_loader)] optimizer steps: in each epoch one step for
    each batch of a pass over the whole dataset, on the gradient of the loss
    of that batch at the parameters of the moment.  [test] and the sampling
    in between make none: the parameters and the optimizer state with which
    an epoch starts are those the steps of the epoch before have left. *)
Theorem main_step_count (g : Globals F) (ds : Dataset F) (w w' : World F) :
  (forall m r, Permutation (fst (randperm m r)) (seq 0 m)) ->
  0 < dl_batch_size (train_loader g) ->
  loader_dataset g (train_loader g) = Ok ds ->
  main g w = (Ok tt, w') ->
  exists gs,
    epochs_steps ds (loader_len (train_loader g) (length ds))
      (Z.to_nat (epochs (args g)))
      (w_params w) (w_opt w) gs (w_params w') (w_opt w') /\
    length gs = Z.to_nat (epochs (args g))
                * loader_len (train_loader g) (length ds).
Proof.
  intros Hperm Hbs Hds E. unfold main in E.
  apply for_each_epochs_run in E.
  destruct (epochs_run_steps Hperm Hbs Hds E) as (gs & Hsteps).
  rewrite range_length in Hsteps.
  exists gs. split; [exact Hsteps | exact (epochs_steps_length Hsteps)].
Qed.

End RunProperties.

(* ===================================================================== *)
(** * The properties of a call on the small environment                   *)
(* ===================================================================== *)

Section RunInstances.
Import Binary32 Fixture Runs.

Lemma fixture_train_returns : train globals 1 world0 = (Ok tt, world_trained).
Proof.
  unfold world_trained.
  assert (E : fst (train globals 1 world0) = Ok tt) by (vm_compute; reflexivity).
  destruct (train globals 1 world0) as [r w]. simpl in E. now subst r.
Qed.

Lemma fixture_test_returns :
  test globals 1 world_trained = (Ok tt, world_tested).
Proof.
  unfold world_tested.
  assert (E : fst (test globals 1 world_trained) = Ok tt)
    by (vm_compute; reflexivity).
  destruct (test globals 1 world_trained) as [r w]. simpl in E. now subst r.
Qed.

Lemma fixture_train_batch_raises :
  train_batch globals_li0 1 dataset 0 [2; 1] pzero world0
  = (Err ZeroDivisionError, world_li0).
Proof.
  unfold world_li0.
  assert (E : fst (train_batch globals_li0 1 dataset 0 [2; 1] pzero world0)
              = Err ZeroDivisionError) by (vm_compute; reflexivity).
  destruct (train_batch globals_li0 1 dataset 0 [2; 1] pzero world0) as [r w].
  simpl in E. now subst r.
Qed.

Lemma fixture_loader_batches :
  loader_batches (train_loader globals) (length dataset) world0
  = (Ok batches, world_loaded).
Proof. reflexivity. Qed.

Lemma fixture_images : images_of_size [3; 32; 32] dataset.
Proof.
  intros img lbl [E | [E | [E | []]]]; injection E as <- _; reflexivity.
Qed.

Lemma fixture_loader_dataset :
  loader_dataset globals (train_loader globals) = Ok dataset.
Proof. reflexivity. Qed.

End RunInstances.

(** X4 on a grey reconstruction of one grey image, in single precision. *)
Lemma MSE_term_of_perfect_reconstruction_witness :
  shape (full [1; 3072] Fixture.half) = [1; 3072] /\
  numel (Fixture.image Fixture.half) = 1 * 3072 /\
  wf (full [1; 3072] Fixture.half) /\ wf (Fixture.image Fixture.half) /\
  data (full [1; 3072] Fixture.half) = data (Fixture.image Fixture.half) /\
  Forall (fun v => finite32 v = true) (data (Fixture.image Fixture.half)) /\
  MSE_term (full [1; 3072] Fixture.half) (Fixture.image Fixture.half)
  = Ok Binary32.pzero.
Proof.
  assert (Hfin : Forall (fun v => finite32 v = true)
                   (data (Fixture.image Fixture.half))).
  { apply Forall_forall. intros v Hv. apply repeat_spec in Hv. now subst v. }
  do 2 (split; [reflexivity|]).
  do 2 (split; [apply wf_full|]).
  split; [reflexivity|]. split; [exact Hfin|].
  exact (proj1 (proj2 MSE_term_of_perfect_reconstruction
                  Fixture.expf Fixture.logf
                  (full [1; 3072] Fixture.half) (Fixture.image Fixture.half)
                  1 eq_refl eq_refl (wf_full _ _) (wf_full _ _) eq_refl
                  Hfin)).
Defined.

(** X5 on the small environment. *)
Lemma train_steps_once_per_batch_witness :
  train Fixture.globals 1 Fixture.world0 = (Ok tt, Runs.world_trained) /\
  exists ds batches wl gs,
    loader_dataset Fixture.globals (train_loader Fixture.globals) = Ok ds /\
    loader_batches (train_loader Fixture.globals) (length ds) Fixture.world0
    = (Ok batches, wl) /\
    steps_run ds batches (w_params Fixture.world0) (w_opt Fixture.world0)
      (w_rng wl) gs (w_params Runs.world_trained) (w_opt Runs.world_trained)
      (w_rng Runs.world_trained) /\
    length gs = length batches /\
    w_grads Runs.world_trained = last gs (w_grads Fixture.world0).
Proof.
  split; [exact fixture_train_returns|].
  exact (train_steps_once_per_batch Fixture.globals 1 Fixture.world0
           fixture_train_returns).
Defined.

(** X6 on the small environment. *)
Lemma train_returns_only_if_witness :
  (forall m r, Permutation (fst (randperm m r)) (seq 0 m)) /\
  train Fixture.globals 1 Fixture.world0 = (Ok tt, Runs.world_trained) /\
  log_interval (args Fixture.globals) <> 0%Z /\
  exists ds, loader_dataset Fixture.globals (train_loader Fixture.globals)
             = Ok ds /\ ds <> [].
Proof.
  split; [exact fixture_randperm|]. split; [exact fixture_train_returns|].
  exact (train_returns_only_if Fixture.globals 1 Fixture.world0
           fixture_randperm fixture_train_returns).
Defined.

(** X7 on the small environment with [--log-interval 0]: the first batch
    raises ZeroDivisionError after its step. *)
Lemma train_batch_failure_witness :
  train_batch Runs.globals_li0 1 Fixture.dataset 0 [2; 1] Binary32.pzero
    Fixture.world0 = (Err ZeroDivisionError, Runs.world_li0) /\
  ((w_params Runs.world_li0 = w_params Fixture.world0 /\
    w_opt Runs.world_li0 = w_opt Fixture.world0 /\
    w_out Runs.world_li0 = w_out Fixture.world0) \/
   (ZeroDivisionError = ZeroDivisionError /\
    exists x, fetch Fixture.dataset [2; 1] = Ok x /\
      (w_params Runs.world_li0, w_opt Runs.world_li0)
      = adam_step (w_params Fixture.world0)
          (backward "MSE" (w_params Fixture.world0)
             (w_training Fixture.world0) x (w_rng Fixture.world0) no_grads)
          (w_opt Fixture.world0))).
Proof.
  split; [exact fixture_train_batch_raises|].
  exact (train_batch_failure Runs.globals_li0 1 Fixture.dataset 0 [2; 1]
           Binary32.pzero Fixture.world0 fixture_train_batch_raises).
Defined.

(** X8 on the small environment. *)
Lemma train_output_witness :
  train Fixture.globals 1 Fixture.world0 = (Ok tt, Runs.world_trained) /\
  exists ds batches lines avg,
    loader_dataset Fixture.globals (train_loader Fixture.globals) = Ok ds /\
    fst (loader_batches (train_loader Fixture.globals) (length ds)
           Fixture.world0) = Ok batches /\
    w_out Runs.world_trained
    = w_out Fixture.world0 ++ lines ++ [PrintTrainEpoch 1 avg] /\
    Forall2 (progress_line 1 (length ds))
      (logged_batches (log_interval (args Fixture.globals)) batches) lines.
Proof.
  split; [exact fixture_train_returns|].
  exact (train_output Fixture.globals 1 Fixture.world0 fixture_train_returns).
Defined.

(** X9 on the small environment. *)
Lemma test_output_witness :
  (forall m r, Permutation (fst (randperm m r)) (seq 0 m)) /\
  test Fixture.globals 1 Runs.world_trained = (Ok tt, Runs.world_tested) /\
  exists ds first rest cmp avg,
    loader_dataset Fixture.globals (test_loader Fixture.globals) = Ok ds /\
    fst (loader_batches (test_loader Fixture.globals) (length ds)
           Runs.world_trained) = Ok (first :: rest) /\
    w_out Runs.world_tested = w_out Runs.world_trained ++
      [SaveImage cmp (reconstruction_file Fixture.globals 1)
         (Nat.min (length first) 8);
       PrintTestLoss avg] /\
    shape cmp = [2 * Nat.min (length first) 8; 3; 32; 32] /\
    (batch_size (args Fixture.globals) = -1 \/
     batch_size (args Fixture.globals) = Z.of_nat (length first))%Z /\
    0 < length first <= length ds /\
    forall i, In i first ->
      exists img lbl, nth_error ds i = Some (img, lbl) /\
                      shape img = [3; 32; 32].
Proof.
  split; [exact fixture_randperm|]. split; [exact fixture_test_returns|].
  exact (test_output Fixture.globals 1 Runs.world_trained
           fixture_randperm fixture_test_returns).
Defined.

(** X11 on the small environment with [--epochs 0]. *)
Lemma main_without_epochs_witness :
  (epochs (args Runs.globals_no_epoch) <= 0)%Z /\
  main Runs.globals_no_epoch Fixture.world0 = (Ok tt, Fixture.world0).
Proof.
  assert (He : (epochs (args Runs.globals_no_epoch) <= 0)%Z)
    by (simpl; lia).
  split; [exact He|].
  exact (main_without_epochs Runs.globals_no_epoch Fixture.world0 He).
Defined.

(** X13 on the loader of the small environment: three examples in batches
    of two. *)
Lemma loader_batches_shape_witness :
  (forall m r, Permutation (fst (randperm m r)) (seq 0 m)) /\
  0 < dl_batch_size (train_loader Fixture.globals) /\
  loader_batches (train_loader Fixture.globals) (length Fixture.dataset)
    Fixture.world0 = (Ok Runs.batches, Runs.world_loaded) /\
  length Runs.batches
  = loader_len (train_loader Fixture.globals) (length Fixture.dataset) /\
  Permutation (concat Runs.batches) (seq 0 (length Fixture.dataset)) /\
  exists full last,
    Runs.batches = full ++ last /\
    Forall (fun b => length b = dl_batch_size (train_loader Fixture.globals))
      full /\
    (last = [] \/
     exists b, last = [b] /\
       0 < length b < dl_batch_size (train_loader Fixture.globals)).
Proof.
  assert (Hbs : 0 < dl_batch_size (train_loader Fixture.globals))
    by (simpl; lia).
  split; [exact fixture_randperm|]. split; [exact Hbs|].
  split; [exact fixture_loader_batches|].
  exact (loader_batches_shape (train_loader Fixture.globals)
           (length Fixture.dataset) Fixture.world0
           fixture_randperm Hbs fixture_loader_batches).
Defined.

(** X14 on the small environment. *)
Lemma loader_batches_fetch_witness :
  (forall m r, Permutation (fst (randperm m r)) (seq 0 m)) /\
  images_of_size [3; 32; 32] Fixture.dataset /\
  loader_batches (train_loader Fixture.globals) (length Fixture.dataset)
    Fixture.world0 = (Ok Runs.batches, Runs.world_loaded) /\
  Forall (fun b => exists x, fetch Fixture.dataset b = Ok x /\
                             shape x = length b :: [3; 32; 32])
    Runs.batches.
Proof.
  split; [exact fixture_randperm|]. split; [exact fixture_images|].
  split; [exact fixture_loader_batches|].
  exact (loader_batches_fetch (train_loader Fixture.globals) Fixture.world0
           fixture_randperm fixture_images fixture_loader_batches).
Defined.

(** X15 on the small environment: one epoch of two batches. *)
Lemma main_step_count_witness :
  (forall m r, Permutation (fst (randperm m r)) (seq 0 m)) /\
  0 < dl_batch_size (train_loader Fixture.globals) /\
  loader_dataset Fixture.globals (train_loader Fixture.globals)
  = Ok Fixture.dataset /\
  main Fixture.globals Fixture.world0 = (Ok tt, Fixture.world_end) /\
  exists gs,
    epochs_steps Fixture.dataset
      (loader_len (train_loader Fixture.globals) (length Fixture.dataset))
      (Z.to_nat (epochs (args Fixture.globals)))
      (w_params Fixture.world0) (w_opt Fixture.world0) gs
      (w_params Fixture.world_end) (w_opt Fixture.world_end) /\
    length gs = Z.to_nat (epochs (args Fixture.globals))
                * loader_len (train_loader Fixture.globals)
                    (length Fixture.dataset).
Proof.
  assert (Hbs : 0 < dl_batch_size (train_loader Fixture.globals))
    by (simpl; lia).
  split; [exact fixture_randperm|]. split; [exact Hbs|].
  split; [exact fixture_loader_dataset|].
  split; [exact fixture_main_returns|].
  exact (main_step_count Fixture.globals Fixture.world0
           fixture_randperm Hbs fixture_loader_dataset fixture_main_returns).
Defined.
